(** * A shallow embedding of [app.py], the Flask backend of the downloader

    The development follows the source file top-down: Python values and
    exceptions, the filename sanitizer, the progress hook, the background
    worker [download_video] with its retry loop, and the HTTP handlers
    [start_download], [get_progress] and [get_file].

    Conventions.
    - A Python [str] whose code points matter (a video title) is a list of
      code points, [pystr].  Paths, messages and dictionary keys are byte
      strings ([string]); every test the program performs on them (an ASCII
      substring, an ASCII suffix, a split on ['.']) gives the same answer on
      the UTF-8 bytes as on the code points.
    - Python floats are IEEE binary64 numbers: the primitive [float].
    - The registry [downloads] is a [gmap] from download ids to job records.
    - A run of the worker is a list of events, each carrying the registry as
      a concurrent reader would see it at that point. *)

From Stdlib Require Import ZArith NArith List String Ascii Floats Lia Sorted.
From stdpp Require Import base gmap strings list pretty.

Local Open Scope Z_scope.

(* ------------------------------------------------------------------ *)
(** * Python strings and the whitespace class                           *)
(* ------------------------------------------------------------------ *)

(** A Python [str]: a sequence of Unicode code points. *)
Definition pystr := list N.

(** An ASCII literal read as a Python string. *)
Definition u (s : string) : pystr :=
  List.map N_of_ascii (list_ascii_of_string s).

(** [str.isspace] on one character; the class [\s] of [re] on [str]
    patterns and the characters removed by [str.strip()] are this same
    set. *)
Definition isspace (c : N) : bool :=
  ((9 <=? c) && (c <=? 13) || (28 <=? c) && (c <=? 32)
   || (c =? 0x85) || (c =? 0xA0) || (c =? 0x1680)
   || (0x2000 <=? c) && (c <=? 0x200A)
   || (c =? 0x2028) || (c =? 0x2029) || (c =? 0x202F)
   || (c =? 0x205F) || (c =? 0x3000))%N.

(** [re.sub(r'\s+', ' ', s)]: every maximal run of whitespace becomes one
    space.  [in_run] tells that the previous character was whitespace. *)
Fixpoint re_sub_ws (in_run : bool) (s : pystr) : pystr :=
  match s with
  | [] => []
  | c :: s' =>
      if isspace c
      then (if in_run then re_sub_ws true s' else 32%N :: re_sub_ws true s')
      else c :: re_sub_ws false s'
  end.

Fixpoint lstrip (s : pystr) : pystr :=
  match s with
  | [] => []
  | c :: s' => if isspace c then lstrip s' else s
  end.

Fixpoint rstrip (s : pystr) : pystr :=
  match s with
  | [] => []
  | c :: s' =>
      match rstrip s' with
      | [] => if isspace c then [] else [c]
      | t => c :: t
      end
  end.

(** [s.strip()] *)
Definition strip (s : pystr) : pystr := rstrip (lstrip s).

(* ------------------------------------------------------------------ *)
(** * [sanitize_filename]                                               *)
(* ------------------------------------------------------------------ *)

(** The character class of the first [re.sub]: the code points of
    less-than, greater-than, colon, double quote, slash, backslash, bar,
    question mark and star. *)
Definition windows_invalid : list N :=
  [60; 62; 58; 34; 47; 92; 124; 63; 42]%N.

Definition is_windows_invalid (c : N) : bool :=
  existsb (N.eqb c) windows_invalid.

(** [ord(c) < 65536 and (ord(c) < 0x1F600 or ord(c) > 0x1FAFF)] *)
Definition keep_ord (c : N) : bool :=
  ((c <? 65536) && ((c <? 0x1F600) || (0x1FAFF <? c)))%N.

(** The character class [[\U00010000-\U0010ffff]]. *)
Definition is_astral (c : N) : bool :=
  ((0x10000 <=? c) && (c <=? 0x10ffff))%N.

Definition sanitize_filename (filename : pystr) : pystr :=
  let filename := List.filter (fun c => negb (is_windows_invalid c)) filename in
  let filename := List.filter keep_ord filename in
  let filename := List.filter (fun c => negb (is_astral c)) filename in
  let filename := strip (re_sub_ws false filename) in
  filename.

(** A character that passes the three filters of the sanitizer. *)
Definition plain (c : N) : Prop :=
  is_windows_invalid c = false /\ keep_ord c = true /\ is_astral c = false.

(* ------------------------------------------------------------------ *)
(** * Python values, exceptions and the arithmetic of the progress hook *)
(* ------------------------------------------------------------------ *)

(** The values the extraction engine puts in its dictionaries. *)
Inductive pyval :=
| PNone
| PInt (n : Z)
| PFloat (x : float)
| PStr (s : string).

(** The outcome of a call: a value, or an exception [e] given by [str(e)],
    the only thing the program ever reads from an exception. *)
Inductive result (A : Type) :=
| Ok (a : A)
| Raise (e : string).
Arguments Ok {A} a.
Arguments Raise {A} e.

Definition type_name (v : pyval) : string :=
  match v with
  | PNone => "NoneType"
  | PInt _ => "int"
  | PFloat _ => "float"
  | PStr _ => "str"
  end.

(** Truth value of [v], as [or] tests it. *)
Definition truthy (v : pyval) : bool :=
  match v with
  | PNone => false
  | PInt n => negb (n =? 0)
  | PFloat x => negb (x =? 0)%float
  | PStr s => negb (String.eqb s EmptyString)
  end.

(** [a or b] *)
Definition py_or (a b : pyval) : pyval := if truthy a then a else b.

(** [v == s] for a string literal [s]. *)
Definition py_eq_str (v : pyval) (s : string) : bool :=
  match v with
  | PStr t => String.eqb t s
  | _ => false
  end.

(** [v > 0] *)
Definition py_gt_0 (v : pyval) : result bool :=
  match v with
  | PInt n => Ok (0 <? n)
  | PFloat x => Ok (0 <? x)%float
  | _ => Raise ("'>' not supported between instances of '" +:+ type_name v
                +:+ "' and 'int'")
  end.

(** An integer as an exact, unnormalised binary float. *)
Definition sf_of_Z (n : Z) : spec_float :=
  match n with
  | Z0 => S754_zero false
  | Zpos p => S754_finite false p 0
  | Zneg p => S754_finite true p 0
  end.

(** [float(n)]: the nearest binary64, ties to even. *)
Definition float_of_int (n : Z) : result float :=
  let x := SF2Prim (binary_normalize prec emax n 0 false) in
  if is_infinity x then Raise "int too large to convert to float" else Ok x.

Definition float_truediv (x y : float) : result float :=
  if (y =? 0)%float then Raise "float division by zero" else Ok (x / y)%float.

(** [a / b].  Two integers are divided exactly and the quotient is rounded
    once; an integer meeting a float is converted first. *)
Definition py_truediv (a b : pyval) : result float :=
  match a, b with
  | PInt m, PInt n =>
      if n =? 0 then Raise "division by zero"
      else
        let q := SF2Prim (SFdiv prec emax (sf_of_Z m) (sf_of_Z n)) in
        if is_infinity q
        then Raise "integer division result too large for a float"
        else Ok q
  | PInt m, PFloat y =>
      match float_of_int m with
      | Ok x => float_truediv x y
      | Raise e => Raise e
      end
  | PFloat x, PInt n =>
      match float_of_int n with
      | Ok y => float_truediv x y
      | Raise e => Raise e
      end
  | PFloat x, PFloat y => float_truediv x y
  | _, _ => Raise ("unsupported operand type(s) for /: '" +:+ type_name a
                   +:+ "' and '" +:+ type_name b +:+ "'")
  end.

(** The integer nearest to [num / den] ([den] positive), ties to even. *)
Definition round_half_even (num den : Z) : Z :=
  let q := num / den in
  let r := num mod den in
  match 2 * r ?= den with
  | Lt => q
  | Gt => q + 1
  | Eq => if Z.even q then q else q + 1
  end.

(** [round(x, 1)] on a float: the exact value of [x] is rounded to the
    nearest multiple of one tenth, ties to even, and that decimal is
    converted back to the nearest binary64. *)
Definition py_round1 (x : float) : float :=
  match Prim2SF x with
  | S754_finite s m e =>
      let tenths :=
        if 0 <=? e then 10 * Zpos m * 2 ^ e
        else round_half_even (10 * Zpos m) (2 ^ (- e)) in
      match tenths with
      | Zpos p => SF2Prim (SFdiv prec emax (S754_finite s p 0)
                                           (S754_finite false 10 0))
      | _ => SF2Prim (S754_zero s)
      end
  | _ => x
  end.

(** A Python dictionary with string keys. *)
Definition dict_get (d : gmap string pyval) (k : string) (dflt : pyval) : pyval :=
  match d !! k with
  | Some v => v
  | None => dflt
  end.

Definition key_error (k : string) : string := "'" +:+ k +:+ "'".

(** [d[k]] *)
Definition dict_item (d : gmap string pyval) (k : string) : result pyval :=
  match d !! k with
  | Some v => Ok v
  | None => Raise (key_error k)
  end.

(* ------------------------------------------------------------------ *)
(** * Job records and the registry [downloads]                          *)
(* ------------------------------------------------------------------ *)

Inductive job_status :=
| Starting | Downloading | Retrying | Processing | Completed | Error.

Definition status_str (s : job_status) : string :=
  match s with
  | Starting => "starting"
  | Downloading => "downloading"
  | Retrying => "retrying"
  | Processing => "processing"
  | Completed => "completed"
  | Error => "error"
  end.

Definition status_eqb (a b : job_status) : bool :=
  String.eqb (status_str a) (status_str b).

(** The dictionary stored under a download id.  The keys [thumbnail] and
    [duration] are absent until the metadata has been fetched. *)
Record job := {
  status : job_status;
  progress : pyval;
  title : pystr;
  filename : string;
  error : option string;
  speed : pyval;
  eta : pyval;
  thumbnail : option pyval;
  duration : option pyval;
}.

Definition set_status (v : job_status) (j : job) : job :=
  {| status := v; progress := progress j; title := title j;
     filename := filename j; error := error j; speed := speed j;
     eta := eta j; thumbnail := thumbnail j; duration := duration j |}.
Definition set_progress (v : pyval) (j : job) : job :=
  {| status := status j; progress := v; title := title j;
     filename := filename j; error := error j; speed := speed j;
     eta := eta j; thumbnail := thumbnail j; duration := duration j |}.
Definition set_title (v : pystr) (j : job) : job :=
  {| status := status j; progress := progress j; title := v;
     filename := filename j; error := error j; speed := speed j;
     eta := eta j; thumbnail := thumbnail j; duration := duration j |}.
Definition set_filename (v : string) (j : job) : job :=
  {| status := status j; progress := progress j; title := title j;
     filename := v; error := error j; speed := speed j;
     eta := eta j; thumbnail := thumbnail j; duration := duration j |}.
Definition set_error (v : option string) (j : job) : job :=
  {| status := status j; progress := progress j; title := title j;
     filename := filename j; error := v; speed := speed j;
     eta := eta j; thumbnail := thumbnail j; duration := duration j |}.
Definition set_speed (v : pyval) (j : job) : job :=
  {| status := status j; progress := progress j; title := title j;
     filename := filename j; error := error j; speed := v;
     eta := eta j; thumbnail := thumbnail j; duration := duration j |}.
Definition set_eta (v : pyval) (j : job) : job :=
  {| status := status j; progress := progress j; title := title j;
     filename := filename j; error := error j; speed := speed j;
     eta := v; thumbnail := thumbnail j; duration := duration j |}.
Definition set_thumbnail (v : pyval) (j : job) : job :=
  {| status := status j; progress := progress j; title := title j;
     filename := filename j; error := error j; speed := speed j;
     eta := eta j; thumbnail := Some v; duration := duration j |}.
Definition set_duration (v : pyval) (j : job) : job :=
  {| status := status j; progress := progress j; title := title j;
     filename := filename j; error := error j; speed := speed j;
     eta := eta j; thumbnail := thumbnail j; duration := Some v |}.

(** The record written by the first statement of [download_video]. *)
Definition new_job : job :=
  {| status := Starting; progress := PInt 0; title := [];
     filename := EmptyString; error := None; speed := PInt 0;
     eta := PInt 0; thumbnail := None; duration := None |}.

(* ------------------------------------------------------------------ *)
(** * The worker's effects                                              *)
(* ------------------------------------------------------------------ *)

(** What a step of the worker does; every event is recorded with the
    registry as it stands once the step is done. *)
Inductive label :=
| LWrite                      (* one dictionary assignment *)
| LSleep (secs : Z)           (* time.sleep(secs) *)
| LPrint (line : string)      (* print(line) *)
| LInfo                       (* extract_info(url, download=False) begins *)
| LDownload (attempt : nat).  (* extract_info(url, download=True) begins *)

Definition event : Type := label * gmap string job.

(** A computation of the worker thread: it reads and writes the registry,
    returns or raises, and leaves a trace of events. *)
Definition M (A : Type) : Type :=
  gmap string job -> result A * gmap string job * list event.

Definition ret {A} (a : A) : M A := fun r => (Ok a, r, []).

Definition raise {A} (e : string) : M A := fun r => (Raise e, r, []).

(** The events [t1] happened before the computation [x] ran. *)
Definition after {A} (t1 : list event)
    (x : result A * gmap string job * list event)
  : result A * gmap string job * list event :=
  match x with
  | (b, r2, t2) => (b, r2, t1 ++ t2)
  end.

Definition bind {A B} (m : M A) (k : A -> M B) : M B := fun r =>
  match m r with
  | (Ok a, r1, t1) => after t1 (k a r1)
  | (Raise e, r1, t1) => (Raise e, r1, t1)
  end.

(** [try: m  except Exception as e: h e] *)
Definition try_except {A} (m : M A) (h : string -> M A) : M A := fun r =>
  match m r with
  | (Ok a, r1, t1) => (Ok a, r1, t1)
  | (Raise e, r1, t1) => after t1 (h e r1)
  end.

Definition lift {A} (x : result A) : M A :=
  match x with
  | Ok a => ret a
  | Raise e => raise e
  end.

Definition emit (l : label) : M unit := fun r => (Ok tt, r, [(l, r)]).

(** [downloads[download_id] = j] *)
Definition setitem (download_id : string) (j : job) : M unit := fun r =>
  let r' := <[download_id := j]> r in (Ok tt, r', [(LWrite, r')]).

(** [downloads[download_id][key] = v], with [f] the update of that key;
    a missing [download_id] raises [KeyError]. *)
Definition setfield (download_id : string) (f : job -> job) : M unit := fun r =>
  match r !! download_id with
  | Some j => let r' := <[download_id := f j]> r in (Ok tt, r', [(LWrite, r')])
  | None => (Raise (key_error download_id), r, [])
  end.

Global Instance M_ret : MRet M := @ret.
Global Instance M_bind : MBind M := fun A B k m => bind m k.

(* ------------------------------------------------------------------ *)
(** * [progress_hook]                                                   *)
(* ------------------------------------------------------------------ *)

Definition progress_hook (d : gmap string pyval) (download_id : string) : M unit :=
  st ← lift (dict_item d "status");
  if py_eq_str st "downloading" then
    let total := py_or (dict_get d "total_bytes" PNone)
                       (dict_get d "total_bytes_estimate" (PInt 0)) in
    let downloaded := dict_get d "downloaded_bytes" (PInt 0) in
    positive ← lift (py_gt_0 total);
    if positive : bool then
      ratio ← lift (py_truediv downloaded total);
      let percent := (ratio * 100)%float in
      setfield download_id (set_progress (PFloat (py_round1 percent))) ;;
      setfield download_id (set_speed (dict_get d "speed" (PInt 0))) ;;
      setfield download_id (set_eta (dict_get d "eta" (PInt 0)))
    else ret tt
  else if py_eq_str st "finished" then
    setfield download_id (set_progress (PInt 100)) ;;
    setfield download_id (set_status Processing)
  else ret tt.

(* ------------------------------------------------------------------ *)
(** * Byte-string helpers                                               *)
(* ------------------------------------------------------------------ *)

(** [needle in hay] *)
Fixpoint contains (needle hay : string) : bool :=
  String.prefix needle hay ||
  match hay with
  | EmptyString => false
  | String _ hay' => contains needle hay'
  end.

(** [s.endswith(suffix)] *)
Definition endswith (s suffix : string) : bool :=
  let n := String.length s in
  let m := String.length suffix in
  (m <=? n)%nat && String.eqb (substring (n - m) m s) suffix.

Definition lower_ascii (c : ascii) : ascii :=
  let n := nat_of_ascii c in
  if (65 <=? n)%nat && (n <=? 90)%nat then ascii_of_nat (n + 32) else c.

(** [s.lower()], on the ASCII letters; no other character lowers to one
    of the characters of [".mp3"] or [".mp4"]. *)
Fixpoint lower (s : string) : string :=
  match s with
  | EmptyString => EmptyString
  | String c s' => String (lower_ascii c) (lower s')
  end.

Fixpoint has_char (a : ascii) (s : string) : bool :=
  match s with
  | EmptyString => false
  | String c s' => Ascii.eqb c a || has_char a s'
  end.

(** [s.rsplit('.', 1)[0]]: what precedes the last dot, or all of [s]. *)
Fixpoint rsplit_dot_head (s : string) : string :=
  match s with
  | EmptyString => EmptyString
  | String c s' =>
      if has_char "." s' then String c (rsplit_dot_head s')
      else if Ascii.eqb c "." then EmptyString
      else s
  end.

(** [os.path.basename(p)] *)
Fixpoint basename (p : string) : string :=
  match p with
  | EmptyString => EmptyString
  | String c p' =>
      if has_char "/" p' then basename p'
      else if Ascii.eqb c "/" then p'
      else p
  end.

(** [''.join(c if ord(c) < 128 else '_' for c in s)] on UTF-8 bytes: the
    lead byte of a longer character becomes the underscore and its
    continuation bytes disappear. *)
Fixpoint ascii_safe (s : string) : string :=
  match s with
  | EmptyString => EmptyString
  | String c s' =>
      let n := nat_of_ascii c in
      if (n <? 128)%nat then String c (ascii_safe s')
      else if (n <? 192)%nat then ascii_safe s'
      else String "_" (ascii_safe s')
  end.

Definition hex_digit (n : nat) : ascii :=
  if (n <? 10)%nat then ascii_of_nat (48 + n) else ascii_of_nat (55 + n).

Definition quote_safe (c : ascii) : bool :=
  let n := nat_of_ascii c in
  (48 <=? n)%nat && (n <=? 57)%nat || (65 <=? n)%nat && (n <=? 90)%nat
  || (97 <=? n)%nat && (n <=? 122)%nat || has_char c "_.-~/".

(** [urllib.parse.quote(s)] *)
Fixpoint quote (s : string) : string :=
  match s with
  | EmptyString => EmptyString
  | String c s' =>
      if quote_safe c then String c (quote s')
      else
        let n := nat_of_ascii c in
        String "%" (String (hex_digit (n / 16))
                      (String (hex_digit (n mod 16)) (quote s')))
  end.

(* ------------------------------------------------------------------ *)
(** * The extraction engine and the file system                         *)
(* ------------------------------------------------------------------ *)

Record postprocessor := {
  key : string;
  preferredcodec : string;
  preferredquality : string;
}.

(** The options handed to the engine for the download.  A key that the
    program removes because its value is [None], or never sets, is [None]
    here.  The [progress_hooks] entry is the call of [progress_hook] on
    every dictionary the engine reports. *)
Record ydl_opts := {
  format : string;
  merge_output_format : option string;
  outtmpl : string;
  quiet : bool;
  no_warnings : bool;
  extract_flat : bool;
  retries : Z;
  file_access_retries : Z;
  fragment_retries : Z;
  cookiefile : option string;
  postprocessors : option (list postprocessor);
}.

(** What [extract_info(url, download=False)] returns, as far as the
    program reads it; [None] is a missing key. *)
Record video_info := {
  info_title : option pystr;
  info_thumbnail : option pyval;
  info_duration : option pyval;
}.

(** One call of [extract_info(url, download=True)] followed by
    [prepare_filename]: the dictionaries passed to the progress hook, in
    order, and then the file name or the exception. *)
Record download_run := {
  callbacks : list (gmap string pyval);
  prepared : result string;
}.

(** Everything outside the program: the download directory, the file
    system, and the engine.  [extract_download opts url n] is the engine's
    behaviour in the attempt of index [n]. *)
Record environment := {
  DOWNLOAD_DIR : string;
  path_exists : string -> bool;
  extract_info : string -> result video_info;
  extract_download : ydl_opts -> string -> nat -> download_run;
}.

(* ------------------------------------------------------------------ *)
(** * [download_video]                                                  *)
(* ------------------------------------------------------------------ *)

Definition cookie_locations : list string :=
  ["/etc/secrets/cookies.txt"; "cookies.txt"].

(** Lines 74 to 121 of the source: the format string, the post-processors
    and the engine options for a quality. *)
Definition build_ydl_opts (E : environment) (quality_height : Z) : ydl_opts :=
  let '(format_str, output_template, postprocessors) :=
    if quality_height =? 0 then
      ("bestaudio/best",
       DOWNLOAD_DIR E +:+ "/%(title)s.%(ext)s",
       [ {| key := "FFmpegExtractAudio"; preferredcodec := "mp3";
            preferredquality := "320" |} ])
    else
      ("bestvideo[height<=" +:+ pretty quality_height
         +:+ "][ext=mp4]+bestaudio[ext=m4a]/bestvideo[height<="
         +:+ pretty quality_height +:+ "]+bestaudio/best[height<="
         +:+ pretty quality_height +:+ "]/best",
       DOWNLOAD_DIR E +:+ "/%(title)s.%(ext)s",
       [])
  in
  {| format := format_str;
     merge_output_format := if 0 <? quality_height then Some "mp4" else None;
     outtmpl := output_template;
     quiet := true;
     no_warnings := true;
     extract_flat := false;
     retries := 10;
     file_access_retries := 10;
     fragment_retries := 10;
     cookiefile := List.find (path_exists E) cookie_locations;
     postprocessors :=
       match postprocessors with
       | [] => None
       | _ => Some postprocessors
       end |}.

(** ['WinError 32' in error_str or 'being used by another process' in error_str] *)
Definition is_file_lock (error_str : string) : bool :=
  contains "WinError 32" error_str
  || contains "being used by another process" error_str.

Fixpoint run_callbacks (ds : list (gmap string pyval)) (download_id : string) : M unit :=
  match ds with
  | [] => ret tt
  | d :: ds' => progress_hook d download_id ;; run_callbacks ds' download_id
  end.

(** The body of the retry loop for one value of [attempt].  [None] is the
    [return] after a success, [Some e] the [continue] with [last_error]
    set to [e]; a raised exception leaves the loop. *)
Definition download_attempt (E : environment) (opts : ydl_opts)
    (url download_id : string) (quality_height : Z)
    (max_retries attempt : nat) : M (option string) :=
  try_except
    (emit (LDownload attempt) ;;
     let run := extract_download E opts url attempt in
     run_callbacks (callbacks run) download_id ;;
     filename ← lift (prepared run);
     let filename :=
       if quality_height =? 0 then rsplit_dot_head filename +:+ ".mp3"
       else filename in
     setfield download_id (set_filename filename) ;;
     setfield download_id (set_status Completed) ;;
     setfield download_id (set_progress (PInt 100)) ;;
     ret None)
    (fun error_str =>
       if is_file_lock error_str then
         if (attempt <? max_retries - 1)%nat then
           emit (LSleep (2 ^ Z.of_nat attempt)) ;;
           setfield download_id (set_status Retrying) ;;
           ret (Some error_str)
         else raise error_str
       else raise error_str).

(** [for attempt in range: ...] and, after the loop, [raise last_error]. *)
Fixpoint retry_loop (E : environment) (opts : ydl_opts)
    (url download_id : string) (quality_height : Z) (max_retries : nat)
    (range : list nat) (last_error : option string) : M unit :=
  match range with
  | [] =>
      match last_error with
      | Some e => raise e
      | None => raise "exceptions must derive from BaseException"
      end
  | attempt :: range' =>
      c ← download_attempt E opts url download_id quality_height
            max_retries attempt;
      match c with
      | None => ret tt
      | Some e =>
          retry_loop E opts url download_id quality_height max_retries
            range' (Some e)
      end
  end.

Definition download_video (E : environment) (url download_id : string)
    (quality_height : Z) : M unit :=
  try_except
    (setitem download_id new_job ;;
     let opts := build_ydl_opts E quality_height in
     match cookiefile opts with
     | Some cookie_path => emit (LPrint ("Using cookies from: " +:+ cookie_path))
     | None => ret tt
     end ;;
     emit LInfo ;;
     info ← lift (extract_info E url);
     let title := sanitize_filename (default (u "video") (info_title info)) in
     setfield download_id (set_title title) ;;
     setfield download_id
       (set_thumbnail (default (PStr EmptyString) (info_thumbnail info))) ;;
     setfield download_id
       (set_duration (default (PInt 0) (info_duration info))) ;;
     setfield download_id (set_status Downloading) ;;
     let max_retries := 3%nat in
     retry_loop E opts url download_id quality_height max_retries
       (seq 0 max_retries) None)
    (fun e =>
       setfield download_id (set_status Error) ;;
       setfield download_id (set_error (Some e))).

(** The events of one run of the worker from the registry [r]. *)
Definition trace (E : environment) (url download_id : string)
    (quality_height : Z) (r : gmap string job) : list event :=
  (download_video E url download_id quality_height r).2.

(** The successive contents of the registry that a request served while
    the worker runs can find: the registry in which the thread was
    started, then the registry after each event of the worker. *)
Definition observable (E : environment) (url download_id : string)
    (quality_height : Z) (r : gmap string job) : list (gmap string job) :=
  r :: List.map snd (trace E url download_id quality_height r).

(** The seconds slept and the download calls made in a trace. *)
Definition sleeps (t : list event) : list Z :=
  flat_map (fun ev => match fst ev with LSleep s => [s] | _ => [] end) t.

Definition download_calls (t : list event) : list nat :=
  flat_map (fun ev => match fst ev with LDownload n => [n] | _ => [] end) t.

(* ------------------------------------------------------------------ *)
(** * The HTTP handlers                                                 *)
(* ------------------------------------------------------------------ *)

Inductive response :=
| JsonError (code : Z) (message : string)   (* jsonify({'error': message}), code *)
| JsonDownloadId (download_id : string)     (* jsonify({'download_id': ...}) *)
| JsonJob (j : job)                         (* jsonify(downloads[download_id]) *)
| FileResponse (path mimetype content_disposition : string).

Definition status_code (resp : response) : Z :=
  match resp with
  | JsonError code _ => code
  | _ => 200
  end.

(** The JSON body of [POST /api/download]; [None] is a missing key or a
    JSON null, which [data.get] does not tell apart for [quality]. *)
Record download_request := {
  req_url : option string;
  req_quality : option Z;
}.

(** [threading.Thread(target=download_video, args=(url, download_id, quality_height))] *)
Record thread := {
  thread_url : string;
  thread_download_id : string;
  thread_quality_height : Z;
}.

(** [start_download], with [uuid4] the identifier drawn by [uuid.uuid4()].
    The handler does not touch [downloads]: it starts the thread and
    returns. *)
Definition start_download (data : download_request) (uuid4 : string)
  : response * option thread :=
  let url := default EmptyString (req_url data) in
  let quality_height := req_quality data in
  let quality_height :=
    match quality_height with
    | None => 4320
    | Some q => if 4320 <? q then 4320 else q
    end in
  if String.eqb url EmptyString then (JsonError 400 "No URL provided", None)
  else
    let download_id := uuid4 in
    (JsonDownloadId download_id,
     Some {| thread_url := url; thread_download_id := download_id;
             thread_quality_height := quality_height |}).

Definition get_progress (downloads : gmap string job) (download_id : string)
  : response :=
  match downloads !! download_id with
  | None => JsonError 404 "Download not found"
  | Some j => JsonJob j
  end.

Definition double_quote : string := String (ascii_of_nat 34) EmptyString.

Definition get_file (E : environment) (downloads : gmap string job)
    (download_id : string) : response :=
  match downloads !! download_id with
  | None => JsonError 404 "Download not found"
  | Some download =>
      if negb (status_eqb (status download) Completed) then
        JsonError 400 "Download not completed"
      else if negb (path_exists E (filename download)) then
        JsonError 404 "File not found"
      else
        let name := basename (filename download) in
        let '(mimetype, name) :=
          if endswith (lower name) ".mp3" then ("audio/mpeg", name)
          else ("video/mp4",
                if negb (endswith (lower name) ".mp4") then name +:+ ".mp4"
                else name) in
        let ascii_filename := ascii_safe name in
        let encoded_filename := quote name in
        FileResponse (filename download) mimetype
          ("attachment; filename=" +:+ double_quote +:+ ascii_filename
             +:+ double_quote +:+ "; filename*=UTF-8''" +:+ encoded_filename)
  end.

(* ------------------------------------------------------------------ *)
(** * The life of a job, as the worker drives it                        *)
(* ------------------------------------------------------------------ *)

Definition live (s : job_status) : bool :=
  match s with
  | Completed | Error => false
  | _ => true
  end.

(** The worker is still at work on [j]: the status is not terminal, no
    artifact is named and no error is recorded. *)
Definition working (j : job) : Prop :=
  live (status j) = true /\ filename j = EmptyString /\ error j = None.

(** The changes of status made while the worker is at work.  No entry
    leads back to [Downloading]. *)
Definition status_next (a b : job_status) : bool :=
  match a, b with
  | Starting, (Starting | Downloading) => true
  | Downloading, (Downloading | Processing | Retrying) => true
  | Processing, (Processing | Retrying) => true
  | Retrying, (Retrying | Processing) => true
  | _, _ => false
  end.

(** The name stored for the file the engine prepared. *)
Definition artifact_name (quality_height : Z) (prepared_name : string) : string :=
  if quality_height =? 0 then rsplit_dot_head prepared_name +:+ ".mp3"
  else prepared_name.

(** [name] is the artifact of some successful download call of the job. *)
Definition named (E : environment) (url : string) (quality_height : Z)
    (name : string) : Prop :=
  exists attempt prepared_name,
    prepared (extract_download E (build_ydl_opts E quality_height) url attempt)
    = Ok prepared_name
    /\ name = artifact_name quality_height prepared_name.

(** What the record looks like at an event that is not a write. *)
Definition event_allowed (l : label) (j : job) : Prop :=
  working j /\
  match l with
  | LWrite => False
  | LPrint _ | LInfo => status j = Starting
  | LDownload O => status j = Downloading
  | LDownload (S _) => status j = Retrying
  | LSleep secs =>
      if secs =? 1 then status j = Downloading \/ status j = Processing
      else status j = Retrying \/ status j = Processing
  end.

(** One event of the worker, seen on the record of its job. *)
Inductive job_step (names : string -> Prop) : label -> job -> job -> Prop :=
| step_event l j :
    event_allowed l j -> job_step names l j j
| step_work j j' :
    working j -> working j' ->
    status_next (status j) (status j') = true ->
    job_step names LWrite j j'
| step_filename j name :
    working j -> status j <> Starting -> names name ->
    job_step names LWrite j (set_filename name j)
| step_completed j :
    live (status j) = true -> error j = None -> names (filename j) ->
    job_step names LWrite j (set_status Completed j)
| step_progress j :
    status j = Completed ->
    job_step names LWrite j (set_progress (PInt 100) j)
| step_error j :
    working j -> job_step names LWrite j (set_status Error j)
| step_message j e :
    status j = Error -> error j = None ->
    job_step names LWrite j (set_error (Some e) j).

(** The trace [t], started in the registry [r], moves the record of
    [download_id] along [R]. *)
Fixpoint path (R : label -> job -> job -> Prop) (download_id : string)
    (r : gmap string job) (t : list event) : Prop :=
  match t with
  | [] => True
  | (l, r') :: t' =>
      (exists a b, r !! download_id = Some a /\ r' !! download_id = Some b
                   /\ R l a b)
      /\ path R download_id r' t'
  end.

Fixpoint last_registry (r : gmap string job) (t : list event) : gmap string job :=
  match t with
  | [] => r
  | (_, r') :: t' => last_registry r' t'
  end.

(** A specification of a computation on the record of [download_id]: from
    a record satisfying [P] the computation moves along [R], touches no
    other record, and ends with [Q]. *)
Definition triple {A} (R : label -> job -> job -> Prop) (download_id : string)
    (P : job -> Prop) (m : M A) (Q : result A -> job -> Prop) : Prop :=
  forall r j, P j ->
    match m (<[download_id := j]> r) with
    | (res, r', t) =>
        path R download_id (<[download_id := j]> r) t
        /\ last_registry (<[download_id := j]> r) t = r'
        /\ exists j', r' = <[download_id := j']> r /\ Q res j'
    end.

(** The status in which the download call of index [attempt] begins. *)
Definition attempt_status (attempt : nat) : job_status :=
  match attempt with
  | O => Downloading
  | S _ => Retrying
  end.

(** The record while the download call of index [attempt] runs. *)
Definition during_attempt (attempt : nat) (j : job) : Prop :=
  working j /\ (status j = attempt_status attempt \/ status j = Processing).

(** The artifact is named and the status has not flipped yet. *)
Definition filed (names : string -> Prop) (j : job) : Prop :=
  live (status j) = true /\ error j = None /\ names (filename j).

Definition completed_with (names : string -> Prop) (j : job) : Prop :=
  status j = Completed /\ error j = None /\ names (filename j).

Definition failed_with (e : string) (j : job) : Prop :=
  status j = Error /\ filename j = EmptyString /\ error j = Some e.

(* ------------------------------------------------------------------ *)
(** * The retry policy, as the specification words it                   *)
(* ------------------------------------------------------------------ *)

(** The successive writes [fs] to the record [j] of [download_id], as
    events on the registry [r]. *)
Fixpoint writes (download_id : string) (r : gmap string job) (j : job)
    (fs : list (job -> job)) : list event :=
  match fs with
  | [] => []
  | f :: fs' =>
      (LWrite, <[download_id := f j]> r) :: writes download_id r (f j) fs'
  end.

Definition apply_writes (fs : list (job -> job)) (j : job) : job :=
  fold_left (fun j f => f j) fs j.

(** The outcome of the download call of index [attempt]: the exception of
    the first callback that raises, or else what the engine prepared.  It
    is read off a run on a registry that holds the record, as the registry
    does whenever the call is made. *)
Definition call_outcome (E : environment) (url download_id : string)
    (quality_height : Z) (attempt : nat) : result string :=
  let run := extract_download E (build_ydl_opts E quality_height) url attempt in
  ((run_callbacks (callbacks run) download_id ;; lift (prepared run))
     (<[download_id := new_job]> ∅)).1.1.

(** Up to [attempts_left] attempts from the index [attempt]; a failure is
    retried only when its message tells of a locked file and an attempt is
    left, after a wait of [2 ^ attempt]; any other failure, or the failure
    of the last attempt, is final.  The result lists the attempts made and
    the waits, and gives the prepared name or the last error. *)
Fixpoint retry_policy (outcome : nat -> result string)
    (attempts_left attempt : nat) : list nat * list Z * result string :=
  match attempts_left with
  | O => ([], [], Raise EmptyString)
  | S remaining =>
      match outcome attempt with
      | Ok name => ([attempt], [], Ok name)
      | Raise e =>
          if is_file_lock e then
            match remaining with
            | O => ([attempt], [], Raise e)
            | S _ =>
                match retry_policy outcome remaining (S attempt) with
                | (calls, waits, res) =>
                    (attempt :: calls, 2 ^ Z.of_nat attempt :: waits, res)
                end
            end
          else ([attempt], [], Raise e)
      end
  end.

(** Every sleep of the trace is followed at once by the write that sets
    the status to retrying. *)
Fixpoint sleep_then_retrying (download_id : string) (t : list event) : Prop :=
  match t with
  | [] => True
  | (l, r1) :: t' =>
      match l with
      | LSleep _ =>
          match t' with
          | (LWrite, r2) :: _ =>
              exists j, r1 !! download_id = Some j
                        /\ r2 = <[download_id := set_status Retrying j]> r1
          | _ => False
          end
      | _ => True
      end
      /\ sleep_then_retrying download_id t'
  end.

(** The record of the job when the worker has ended. *)
Definition final_job (E : environment) (url download_id : string)
    (quality_height : Z) (r : gmap string job) : option job :=
  (download_video E url download_id quality_height r).1.2 !! download_id.

(* ------------------------------------------------------------------ *)
(** * Sample engines                                                    *)
(* ------------------------------------------------------------------ *)

Definition lock_message : string :=
  "[WinError 32] The process cannot access the file because it is being used by another process".

(** The engine reports 50 bytes out of 100. *)
Definition hook_half : gmap string pyval :=
  {[ "status" := PStr "downloading"; "downloaded_bytes" := PInt 50;
     "total_bytes" := PInt 100; "speed" := PFloat 1.5; "eta" := PInt 3 ]}.

(** The engine reports 1 byte out of 3. *)
Definition hook_third : gmap string pyval :=
  {[ "status" := PStr "downloading"; "downloaded_bytes" := PInt 1;
     "total_bytes" := PInt 3 ]}.

(** The engine reports bytes but no total. *)
Definition hook_no_total : gmap string pyval :=
  {[ "status" := PStr "downloading"; "downloaded_bytes" := PInt 50;
     "speed" := PFloat 1.5; "eta" := PInt 3 ]}.

Definition hook_finished : gmap string pyval :=
  {[ "status" := PStr "finished" ]}.

Definition sample_info : video_info :=
  {| info_title := Some (u "A: b"); info_thumbnail := None;
     info_duration := Some (PInt 9) |}.

(** Every download call fails on a locked file. *)
Definition env_locked : environment :=
  {| DOWNLOAD_DIR := "/app/downloads";
     path_exists := fun _ => false;
     extract_info := fun _ => Ok sample_info;
     extract_download := fun _ _ _ =>
       {| callbacks := [hook_half]; prepared := Raise lock_message |} |}.

(** The first download call succeeds, without a finished signal. *)
Definition env_ok : environment :=
  {| DOWNLOAD_DIR := "/app/downloads";
     path_exists := fun p => String.eqb p "/app/downloads/A b.mp4";
     extract_info := fun _ => Ok sample_info;
     extract_download := fun _ _ _ =>
       {| callbacks := [hook_half];
          prepared := Ok "/app/downloads/A b.mp4" |} |}.

(** The first two calls fail on a locked file, the third succeeds. *)
Definition env_retry : environment :=
  {| DOWNLOAD_DIR := "/app/downloads";
     path_exists := fun _ => false;
     extract_info := fun _ => Ok sample_info;
     extract_download := fun _ _ n =>
       match n with
       | O | S O => {| callbacks := [hook_half]; prepared := Raise lock_message |}
       | _ => {| callbacks := [hook_half; hook_finished];
                 prepared := Ok "/app/downloads/A b.mp4" |}
       end |}.

(** The engine cannot resolve the URL at the download call. *)
Definition env_broken : environment :=
  {| DOWNLOAD_DIR := "/app/downloads";
     path_exists := fun _ => false;
     extract_info := fun _ => Ok sample_info;
     extract_download := fun _ _ _ =>
       {| callbacks := []; prepared := Raise "Video unavailable" |} |}.

(* ------------------------------------------------------------------ *)
(** * Records along a run, write by write                               *)
(* ------------------------------------------------------------------ *)

(** Every event of the trace [t] leaves the registry equal to [r] but for
    the record of [download_id]; that record goes from [j] to [j'] by
    steps of [R]. *)
Fixpoint chain (R : job -> job -> Prop) (download_id : string)
    (r : gmap string job) (j : job) (t : list event) (j' : job) : Prop :=
  match t with
  | [] => j' = j
  | (_, r1) :: t' =>
      exists j1, r1 = <[download_id := j1]> r /\ R j j1
                 /\ chain R download_id r j1 t' j'
  end.

(** A computation that reads and writes the record of [download_id] only:
    from a record satisfying [P], its events form a chain of [R], and it
    ends with [Q]. *)
Definition follows {A} (R : job -> job -> Prop) (download_id : string)
    (P : job -> Prop) (m : M A) (Q : result A -> job -> Prop) : Prop :=
  forall r j, P j ->
    match m (<[download_id := j]> r) with
    | (res, r', t) =>
        exists j', r' = <[download_id := j']> r
                   /\ chain R download_id r j t j' /\ Q res j'
    end.

(** What a progress callback may change in a record: progress, speed and
    eta, and the status, which it may set to processing. *)
Definition hook_step (a b : job) : Prop :=
  title b = title a /\ filename b = filename a /\ error b = error a
  /\ thumbnail b = thumbnail a /\ duration b = duration a
  /\ (status b = status a \/ status b = Processing).

(** What every write of the worker respects: once the status has left
    starting, it does not come back to it and title, thumbnail and
    duration are fixed; and a title free of removed characters stays so. *)
Definition tidy_step (a b : job) : Prop :=
  (status a <> Starting ->
   status b <> Starting /\ title b = title a
   /\ thumbnail b = thumbnail a /\ duration b = duration a)
  /\ (Forall plain (title a) -> Forall plain (title b)).

(** The metadata cannot be fetched. *)
Definition env_no_info : environment :=
  {| DOWNLOAD_DIR := "/app/downloads";
     path_exists := fun p => String.eqb p "cookies.txt";
     extract_info := fun _ => Raise "Video unavailable";
     extract_download := fun _ _ _ =>
       {| callbacks := [hook_half];
          prepared := Ok "/app/downloads/A b.mp4" |} |}.

(* ------------------------------------------------------------------ *)
(** * Predicates on header values                                       *)
(* ------------------------------------------------------------------ *)

(** Every byte of the string is below 128. *)
Fixpoint is_ascii (s : string) : bool :=
  match s with
  | EmptyString => true
  | String c s' => (nat_of_ascii c <? 128)%nat && is_ascii s'
  end.

(** The value of [Content-Disposition] that [get_file] builds for the
    name [name]. *)
Definition content_disposition (name : string) : string :=
  "attachment; filename=" +:+ double_quote +:+ ascii_safe name
    +:+ double_quote +:+ "; filename*=UTF-8''" +:+ quote name.

(* ------------------------------------------------------------------ *)
(** * [get_video_info]                                                  *)
(* ------------------------------------------------------------------ *)

(** An entry of [info['formats']], as far as the handler reads it.  For
    [f_vcodec], [f_filesize], [f_filesize_approx] and [f_format_note],
    [None] is a missing key.  The engine gives a height as an integer or
    as null: [f_height] is [None] for a missing key and for null, which
    [f.get('height')] and the test that follows do not tell apart. *)
Record video_format := {
  f_vcodec : option pyval;
  f_height : option Z;
  f_filesize : option pyval;
  f_filesize_approx : option pyval;
  f_format_note : option pyval;
}.

(** What [extract_info(url, download=False)] returns, as far as
    [get_video_info] reads it; [None] is a missing key.  The description
    is a string or null ([Some None]); [d_formats] is [None] for a
    missing key and for null. *)
Record info_dict := {
  d_title : option pyval;
  d_thumbnail : option pyval;
  d_duration : option pyval;
  d_channel : option pyval;
  d_uploader : option pyval;
  d_view_count : option pyval;
  d_description : option (option pystr);
  d_formats : option (list video_format);
}.

(** The options of the engine in [get_video_info]. *)
Record info_opts := {
  io_quiet : bool;
  io_no_warnings : bool;
  io_cookiefile : option string;
}.

(** An element of [quality_options]. *)
Record quality_option := {
  q_height : Z;
  q_label : string;
  q_filesize : pyval;
  q_format_note : pyval;
}.

(** The JSON object of a successful answer. *)
Record info_page := {
  page_title : pyval;
  page_thumbnail : pyval;
  page_duration : pyval;
  page_channel : pyval;
  page_views : pyval;
  page_description : pystr;
  page_qualities : list quality_option;
}.

Inductive info_response :=
| InfoError (code : Z) (message : string)   (* jsonify({'error': message}), code *)
| InfoPage (page : info_page).              (* jsonify({...}), 200 *)

(** [f.get('vcodec') != 'none' and f.get('height')], as a condition. *)
Definition is_video_format (f : video_format) : bool :=
  negb (py_eq_str (default PNone (f_vcodec f)) "none")
  && match f_height f with
     | Some h => negb (h =? 0)
     | None => false
     end.

(** [x.get('height', 0)], the sort key, on the formats kept: for them the
    key is present and it is not null. *)
Definition height_key (x : video_format) : Z := default 0 (f_height x).

(** [video_formats.sort(key=..., reverse=True)]: the sort is stable, also
    when reversed, so an element goes before the elements of the same key
    that follow it in the list and after the ones of greater key. *)
Fixpoint insert_desc (x : video_format) (l : list video_format)
  : list video_format :=
  match l with
  | [] => [x]
  | y :: l' =>
      if height_key y <=? height_key x then x :: l
      else y :: insert_desc x l'
  end.

Definition sort_desc (l : list video_format) : list video_format :=
  foldr insert_desc [] l.

Definition quality_label (height : Z) : string :=
  if 2160 <=? height then "4K (" +:+ pretty height +:+ "p)"
  else if 1440 <=? height then "2K (" +:+ pretty height +:+ "p)"
  else pretty height +:+ "p".

(** The dictionary appended for the format [f] of height [height]. *)
Definition quality_of (f : video_format) (height : Z) : quality_option :=
  {| q_height := height;
     q_label := quality_label height;
     q_filesize :=
       py_or (py_or (default PNone (f_filesize f))
                (default PNone (f_filesize_approx f))) (PInt 0);
     q_format_note := default (PStr EmptyString) (f_format_note f) |}.

(** [for f in video_formats: ...], with the set of the heights seen. *)
Fixpoint quality_loop (video_formats : list video_format)
    (seen_heights : gset Z) : list quality_option :=
  match video_formats with
  | [] => []
  | f :: rest =>
      let height := height_key f in
      if negb (height =? 0) && negb (bool_decide (height ∈ seen_heights)) then
        quality_of f height :: quality_loop rest ({[height]} ∪ seen_heights)
      else quality_loop rest seen_heights
  end.

Definition audio_only : quality_option :=
  {| q_height := 0;
     q_label := "Audio Only (MP3)";
     q_filesize := PInt 0;
     q_format_note := PStr "audio" |}.

(** Lines 185 to 199 of the source: the engine options, with the first
    cookie file that exists. *)
Definition info_ydl_opts (E : environment) : info_opts :=
  {| io_quiet := true; io_no_warnings := true;
     io_cookiefile := List.find (path_exists E) cookie_locations |}.

(** [get_video_info], with [extract] the engine's
    [extract_info(url, download=False)] under the options given. *)
Definition get_video_info (E : environment)
    (extract : info_opts -> string -> result info_dict)
    (data : download_request) : info_response :=
  let url := default EmptyString (req_url data) in
  if String.eqb url EmptyString then InfoError 400 "No URL provided"
  else
    let ydl_opts := info_ydl_opts E in
    match extract ydl_opts url with
    | Raise e => InfoError 400 e
    | Ok info =>
        let quality_options :=
          match default [] (d_formats info) with
          | [] => []
          | formats =>
              let video_formats := List.filter is_video_format formats in
              let video_formats := sort_desc video_formats in
              quality_loop video_formats ∅
          end in
        let quality_options := quality_options ++ [audio_only] in
        match default (Some []) (d_description info) with
        | None => InfoError 400 "'NoneType' object is not subscriptable"
        | Some description =>
            InfoPage
              {| page_title := default (PStr "Unknown") (d_title info);
                 page_thumbnail :=
                   default (PStr EmptyString) (d_thumbnail info);
                 page_duration := default (PInt 0) (d_duration info);
                 page_channel :=
                   default (default (PStr "Unknown") (d_uploader info))
                     (d_channel info);
                 page_views := default (PInt 0) (d_view_count info);
                 page_description := firstn 500 description;
                 page_qualities := quality_options |}
        end
    end.

(** The heights offered before the audio entry. *)
Definition video_heights (page : info_page) : list Z :=
  List.map q_height (removelast (page_qualities page)).

(** A sample of what the engine lists: two formats of height 720, one of
    1080, one of 2160 and an audio track. *)
Definition sample_formats : list video_format :=
  [ {| f_vcodec := Some (PStr "avc1"); f_height := Some 720;
       f_filesize := Some (PInt 1000); f_filesize_approx := None;
       f_format_note := Some (PStr "720p") |};
    {| f_vcodec := Some (PStr "none"); f_height := None;
       f_filesize := Some (PInt 10); f_filesize_approx := None;
       f_format_note := Some (PStr "medium") |};
    {| f_vcodec := Some (PStr "vp9"); f_height := Some 2160;
       f_filesize := None; f_filesize_approx := Some (PInt 9000);
       f_format_note := None |};
    {| f_vcodec := Some (PStr "vp9"); f_height := Some 720;
       f_filesize := Some (PInt 2000); f_filesize_approx := None;
       f_format_note := Some (PStr "720p60") |};
    {| f_vcodec := None; f_height := Some 1080;
       f_filesize := Some PNone; f_filesize_approx := None;
       f_format_note := Some (PStr "1080p") |} ].

Definition sample_page_info : info_dict :=
  {| d_title := Some (PStr "A: b"); d_thumbnail := None;
     d_duration := Some (PInt 9); d_channel := None;
     d_uploader := Some (PStr "someone"); d_view_count := None;
     d_description := Some (Some (u "about"));
     d_formats := Some sample_formats |}.

Definition sample_extract (opts : info_opts) (url : string)
  : result info_dict := Ok sample_page_info.

(** The engine returns a video without description. *)
Definition sample_extract_null (opts : info_opts) (url : string)
  : result info_dict :=
  Ok {| d_title := Some (PStr "A: b"); d_thumbnail := None;
        d_duration := Some (PInt 9); d_channel := None;
        d_uploader := None; d_view_count := None;
        d_description := Some None;
        d_formats := Some sample_formats |}.

(* ================================================================== *)
(** * Properties                                                        *)
(* ================================================================== *)

Example sanitize_demo :
  sanitize_filename (u "  My: <Video>" ++ [0x1F600%N; 9%N; 0xA0%N] ++ u "part?  2 ")
  = u "My Video part 2".
Proof. vm_compute. reflexivity. Qed.

(* ------------------------------------------------------------------ *)
(** ** The sanitizer                                                    *)
(* ------------------------------------------------------------------ *)

Section Sanitizer.

Implicit Types (s t : pystr) (c : N) (b : bool).

Lemma isspace_32 : isspace 32%N = true.
Proof. reflexivity. Qed.

Lemma re_sub_ws_idem b s : re_sub_ws b (re_sub_ws b s) = re_sub_ws b s.
Proof.
  revert b. induction s as [|c s IH]; intros b; simpl; [reflexivity|].
  destruct (isspace c) eqn:Hc.
  - destruct b; [apply IH|].
    change (re_sub_ws false (32%N :: re_sub_ws true s))
      with (32%N :: re_sub_ws true (re_sub_ws true s)).
    f_equal. apply IH.
  - simpl. rewrite Hc. f_equal. apply IH.
Qed.

Lemma re_sub_ws_length b s : (length (re_sub_ws b s) <= length s)%nat.
Proof.
  revert b. induction s as [|c s IH]; intros b; simpl; [lia|].
  pose proof (IH true). pose proof (IH false).
  destruct (isspace c); [destruct b|]; simpl; lia.
Qed.

(** A list left unchanged by [re_sub_ws true] does not start with
    whitespace. *)
Lemma re_sub_ws_true_fixed c s :
  re_sub_ws true (c :: s) = c :: s -> isspace c = false.
Proof.
  simpl. destruct (isspace c); [|reflexivity].
  intros H. pose proof (re_sub_ws_length true s) as Hl.
  rewrite H in Hl. simpl in Hl. lia.
Qed.

Lemma re_sub_ws_flag c s b :
  isspace c = false -> re_sub_ws b (c :: s) = c :: re_sub_ws false s.
Proof. intros H. simpl. rewrite H. reflexivity. Qed.

Lemma lstrip_fixed_sub s :
  re_sub_ws false s = s -> re_sub_ws false (lstrip s) = lstrip s.
Proof.
  destruct s as [|c s]; [reflexivity|].
  simpl. destruct (isspace c) eqn:Hc.
  - intros H. injection H as _ H.
    destruct s as [|d s]; [reflexivity|].
    pose proof (re_sub_ws_true_fixed _ _ H) as Hd.
    simpl. rewrite Hd.
    rewrite (re_sub_ws_flag d s true Hd) in H.
    rewrite (re_sub_ws_flag d s false Hd). exact H.
  - intros H. simpl. rewrite Hc. exact H.
Qed.

Lemma rstrip_fixed_sub b s :
  re_sub_ws b s = s -> re_sub_ws b (rstrip s) = rstrip s.
Proof.
  revert b. induction s as [|c s IH]; intros b; [reflexivity|].
  simpl. destruct (isspace c) eqn:Hc.
  - destruct b.
    + intros H. pose proof (re_sub_ws_length true s) as Hl.
      rewrite H in Hl. simpl in Hl. lia.
    + intros H. injection H as Hc32 H. subst c.
      specialize (IH true H).
      destruct (rstrip s) as [|d t]; [reflexivity|].
      simpl. simpl in IH. rewrite IH. reflexivity.
  - intros H. injection H as H. specialize (IH false H).
    destruct (rstrip s) as [|d t].
    + simpl. rewrite Hc. reflexivity.
    + rewrite (re_sub_ws_flag c (d :: t) b Hc). rewrite IH. reflexivity.
Qed.

Lemma lstrip_head s c : head (lstrip s) = Some c -> isspace c = false.
Proof.
  induction s as [|d s IH]; simpl; [discriminate|].
  destruct (isspace d) eqn:Hd; [exact IH|].
  simpl. intros [= <-]. exact Hd.
Qed.

Lemma rstrip_head s c :
  head s = Some c -> isspace c = false -> head (rstrip s) = Some c.
Proof.
  destruct s as [|d s]; simpl; [discriminate|].
  intros [= <-] Hc. destruct (rstrip s); [rewrite Hc|]; reflexivity.
Qed.

Lemma lstrip_fixed s :
  (forall c, head s = Some c -> isspace c = false) -> lstrip s = s.
Proof.
  destruct s as [|d s]; simpl; [reflexivity|].
  intros H. rewrite (H d eq_refl). reflexivity.
Qed.

Lemma rstrip_last s c : last (rstrip s) = Some c -> isspace c = false.
Proof.
  induction s as [|d s IH]; simpl; [discriminate|].
  destruct (rstrip s) as [|e t] eqn:Hr.
  - destruct (isspace d) eqn:Hd; simpl; [discriminate|].
    intros [= <-]. exact Hd.
  - intros H. apply IH. simpl in H. exact H.
Qed.

Lemma rstrip_idem s : rstrip (rstrip s) = rstrip s.
Proof.
  induction s as [|d s IH]; simpl; [reflexivity|].
  destruct (rstrip s) as [|e t] eqn:Hr.
  - destruct (isspace d) eqn:Hd; simpl; [reflexivity|].
    rewrite Hd. reflexivity.
  - change (rstrip (d :: e :: t)) with
      (match rstrip (e :: t) with
       | [] => if isspace d then [] else [d]
       | x => d :: x
       end).
    rewrite IH. reflexivity.
Qed.

Lemma strip_idem s : strip (strip s) = strip s.
Proof.
  unfold strip.
  assert (lstrip (rstrip (lstrip s)) = rstrip (lstrip s)) as ->.
  { apply lstrip_fixed. intros c Hc.
    destruct (lstrip s) as [|d t] eqn:Hl; [discriminate|].
    assert (isspace d = false) as Hd.
    { apply (lstrip_head s). rewrite Hl. reflexivity. }
    rewrite (rstrip_head (d :: t) d eq_refl Hd) in Hc.
    injection Hc as <-. exact Hd. }
  apply rstrip_idem.
Qed.

Lemma strip_fixed_sub s :
  re_sub_ws false s = s -> re_sub_ws false (strip s) = strip s.
Proof.
  intros H. unfold strip. apply rstrip_fixed_sub, lstrip_fixed_sub, H.
Qed.

(** Every character of the results is a character of the argument (or
    the space that replaces a run). *)
Lemma Forall_lstrip (P : N -> Prop) s : Forall P s -> Forall P (lstrip s).
Proof.
  induction 1 as [|d s Hd Hs IH]; simpl; [constructor|].
  destruct (isspace d); [exact IH|constructor; assumption].
Qed.

Lemma Forall_rstrip (P : N -> Prop) s : Forall P s -> Forall P (rstrip s).
Proof.
  induction 1 as [|d s Hd Hs IH]; simpl; [constructor|].
  destruct (rstrip s).
  - destruct (isspace d); constructor; [assumption|constructor].
  - constructor; assumption.
Qed.

Lemma Forall_re_sub_ws (P : N -> Prop) b s :
  P 32%N -> Forall P s -> Forall P (re_sub_ws b s).
Proof.
  intros H32 Hs. revert b.
  induction Hs as [|d s Hd Hs IH]; intros b; simpl; [constructor|].
  destruct (isspace d); [destruct b|]; try constructor; auto.
Qed.

Lemma Forall_filter_true (f : N -> bool) s :
  Forall (fun c => f c = true) s -> List.filter f s = s.
Proof.
  induction 1 as [|d s Hd Hs IH]; simpl; [reflexivity|].
  rewrite Hd, IH. reflexivity.
Qed.

Lemma Forall_filter_intro (f : N -> bool) s :
  Forall (fun c => f c = true) (List.filter f s).
Proof.
  induction s as [|d s IH]; simpl; [constructor|].
  destruct (f d) eqn:Hd; [constructor; assumption|assumption].
Qed.

Lemma Forall_filter_keep (P : N -> Prop) (f : N -> bool) s :
  Forall P s -> Forall P (List.filter f s).
Proof.
  induction 1 as [|d s Hd Hs IH]; simpl; [constructor|].
  destruct (f d); [constructor; assumption|assumption].
Qed.

Lemma plain_32 : plain 32%N.
Proof. repeat split. Qed.

Lemma sanitize_plain s : Forall plain (sanitize_filename s).
Proof.
  unfold sanitize_filename, strip.
  apply Forall_rstrip, Forall_lstrip, Forall_re_sub_ws; [apply plain_32|].
  set (f1 := fun c => negb (is_windows_invalid c)).
  set (f3 := fun c => negb (is_astral c)).
  assert (Forall (fun c => f1 c = true) (List.filter f1 s)) as H1
    by apply Forall_filter_intro.
  assert (Forall (fun c => keep_ord c = true)
            (List.filter keep_ord (List.filter f1 s))) as H2
    by apply Forall_filter_intro.
  assert (Forall (fun c => f3 c = true)
            (List.filter f3 (List.filter keep_ord (List.filter f1 s)))) as H3
    by apply Forall_filter_intro.
  apply (Forall_filter_keep _ keep_ord) in H1.
  apply (Forall_filter_keep _ f3) in H1.
  apply (Forall_filter_keep _ f3) in H2.
  rewrite Forall_forall in *. intros c Hc.
  specialize (H1 c Hc). specialize (H2 c Hc). specialize (H3 c Hc).
  unfold f1 in H1. unfold f3 in H3. unfold plain.
  destruct (is_windows_invalid c), (is_astral c); simpl in *; auto;
    discriminate.
Qed.

Lemma sanitize_sub_fixed s :
  re_sub_ws false (sanitize_filename s) = sanitize_filename s.
Proof.
  unfold sanitize_filename. apply strip_fixed_sub, re_sub_ws_idem.
Qed.

(** A list fixed by the whitespace substitution has no two whitespace
    characters in a row, and its whitespace characters are spaces. *)
Lemma sub_fixed_no_run b s i c d :
  re_sub_ws b s = s ->
  s !! i = Some c -> s !! S i = Some d ->
  ~ (isspace c = true /\ isspace d = true).
Proof.
  revert b i. induction s as [|x s IH]; intros b i Hfix Hc Hd; [discriminate|].
  simpl in Hfix. destruct (isspace x) eqn:Hx.
  - destruct b.
    + pose proof (re_sub_ws_length true s) as Hl.
      rewrite Hfix in Hl. simpl in Hl. lia.
    + injection Hfix as _ Hfix. destruct i as [|i].
      * simpl in Hc, Hd. destruct s as [|y s]; [discriminate|].
        simpl in Hd. injection Hd as <-.
        rewrite (re_sub_ws_true_fixed _ _ Hfix). intros [_ ?]. discriminate.
      * simpl in Hc, Hd. exact (IH true i Hfix Hc Hd).
  - injection Hfix as Hfix. destruct i as [|i].
    + simpl in Hc. injection Hc as <-. rewrite Hx. intros [? _]. discriminate.
    + simpl in Hc, Hd. exact (IH false i Hfix Hc Hd).
Qed.

End Sanitizer.

(** C6. The filename sanitizer is a function, hence deterministic and free
    of effects; it is idempotent, and its result has no code point outside
    the basic multilingual plane, none of the reserved characters, no two
    whitespace characters in a row, and no whitespace at either end. *)
Theorem sanitize_filename_idempotent_clean (s : pystr) :
  sanitize_filename (sanitize_filename s) = sanitize_filename s
  /\ Forall (fun c => (c < 65536)%N) (sanitize_filename s)
  /\ Forall (fun c => ~ In c windows_invalid) (sanitize_filename s)
  /\ (forall i c d,
        sanitize_filename s !! i = Some c ->
        sanitize_filename s !! S i = Some d ->
        ~ (isspace c = true /\ isspace d = true))
  /\ (forall c, head (sanitize_filename s) = Some c -> isspace c = false)
  /\ (forall c, last (sanitize_filename s) = Some c -> isspace c = false).
Proof.
  pose proof (sanitize_plain s) as Hp.
  pose proof (sanitize_sub_fixed s) as Hf.
  assert (strip (sanitize_filename s) = sanitize_filename s) as Hs.
  { unfold sanitize_filename. apply strip_idem. }
  split; [|split; [|split; [|split; [|split]]]].
  - set (o := sanitize_filename s) in *.
    unfold sanitize_filename.
    rewrite (Forall_filter_true (fun c => negb (is_windows_invalid c)) o).
    2:{ eapply Forall_impl; [exact Hp|]. intros c (-> & _ & _). reflexivity. }
    rewrite (Forall_filter_true keep_ord o).
    2:{ eapply Forall_impl; [exact Hp|]. intros c (_ & H & _). exact H. }
    rewrite (Forall_filter_true (fun c => negb (is_astral c)) o).
    2:{ eapply Forall_impl; [exact Hp|]. intros c (_ & _ & ->). reflexivity. }
    rewrite Hf. exact Hs.
  - eapply Forall_impl; [exact Hp|]. intros c (_ & H & _).
    unfold keep_ord in H. apply andb_prop in H as [H _].
    apply N.ltb_lt in H. exact H.
  - eapply Forall_impl; [exact Hp|]. intros c (H & _ & _) Hin.
    unfold is_windows_invalid in H.
    assert (existsb (N.eqb c) windows_invalid = true) as Ht.
    { apply existsb_exists. exists c. split; [exact Hin|apply N.eqb_refl]. }
    rewrite H in Ht. discriminate.
  - intros i c d Hc Hd. exact (sub_fixed_no_run false _ i c d Hf Hc Hd).
  - intros c Hc. unfold sanitize_filename, strip in Hc.
    match type of Hc with head (rstrip (lstrip ?t)) = _ => set (w := t) in * end.
    destruct (lstrip w) as [|x l] eqn:Hl; [discriminate|].
    assert (isspace x = false) as Hx.
    { apply (lstrip_head w). rewrite Hl. reflexivity. }
    rewrite (rstrip_head (x :: l) x eq_refl Hx) in Hc.
    injection Hc as <-. exact Hx.
  - intros c Hc. unfold sanitize_filename, strip in Hc.
    exact (rstrip_last _ _ Hc).
Qed.

(* ------------------------------------------------------------------ *)
(** ** Quality tiers and format selection                               *)
(* ------------------------------------------------------------------ *)



(** The format string of a video tier. *)
Lemma video_format_not_audio (h : string) :
  "bestvideo[height<=" +:+ h
    +:+ "][ext=mp4]+bestaudio[ext=m4a]/bestvideo[height<="
    +:+ h +:+ "]+bestaudio/best[height<=" +:+ h +:+ "]/best"
  <> "bestaudio/best".
Proof. simpl. discriminate. Qed.

Lemma format_audio_iff (E : environment) (q : Z) :
  format (build_ydl_opts E q) = "bestaudio/best" <-> q = 0.
Proof.
  unfold build_ydl_opts. destruct (q =? 0) eqn:Hq.
  - apply Z.eqb_eq in Hq. simpl. tauto.
  - apply Z.eqb_neq in Hq. cbn [format]. split; [|tauto].
    intros H. exfalso. exact (video_format_not_audio _ H).
Qed.

(** C10. A negative quality is neither rejected, nor clamped, nor read as
    audio-only: the download starts with the value unchanged, and the value
    enters the height bound of the video format string.  Audio-only is
    chosen exactly for quality 0, and every quality up to 4320 is passed on
    as it is. *)
Theorem negative_quality_unchanged (E : environment) (url uuid4 : string) (q : Z) :
  url <> EmptyString ->
  (q <= 4320 ->
   start_download {| req_url := Some url; req_quality := Some q |} uuid4
   = (JsonDownloadId uuid4,
      Some {| thread_url := url; thread_download_id := uuid4;
              thread_quality_height := q |}))
  /\ (q < 0 ->
      format (build_ydl_opts E q)
      = "bestvideo[height<=" +:+ pretty q
          +:+ "][ext=mp4]+bestaudio[ext=m4a]/bestvideo[height<="
          +:+ pretty q +:+ "]+bestaudio/best[height<=" +:+ pretty q
          +:+ "]/best"
      /\ postprocessors (build_ydl_opts E q) = None)
  /\ (forall t,
        snd (start_download {| req_url := Some url; req_quality := Some q |} uuid4)
        = Some t ->
        (format (build_ydl_opts E (thread_quality_height t)) = "bestaudio/best"
         <-> q = 0)).
Proof.
  intros Hurl.
  assert (String.eqb url EmptyString = false) as Hu
    by (apply String.eqb_neq; exact Hurl).
  split; [|split].
  - intros Hq. unfold start_download. simpl. rewrite Hu.
    assert ((4320 <? q) = false) as -> by (apply Z.ltb_ge; exact Hq).
    reflexivity.
  - intros Hq. unfold build_ydl_opts.
    assert ((q =? 0) = false) as -> by (apply Z.eqb_neq; lia).
    split; reflexivity.
  - intros t. unfold start_download. simpl. rewrite Hu.
    destruct (4320 <? q) eqn:Hq; intros [= <-]; cbn [thread_quality_height].
    + apply Z.ltb_lt in Hq.
      pose proof (format_audio_iff E 4320) as Hf. split; [|lia].
      intros H. apply Hf in H. discriminate.
    + apply format_audio_iff.
Qed.

(* ------------------------------------------------------------------ *)
(** ** File retrieval                                                   *)
(* ------------------------------------------------------------------ *)

Section Suffixes.

Implicit Types (x y : string) (a : ascii).

Lemma has_char_app a x y :
  has_char a (x +:+ y) = has_char a x || has_char a y.
Proof.
  induction x as [|c x IH]; simpl; [reflexivity|].
  rewrite IH. apply orb_assoc.
Qed.

Lemma basename_no_slash y : has_char "/" y = false -> basename y = y.
Proof.
  destruct y as [|c y]; simpl; [reflexivity|].
  intros H. apply orb_false_elim in H as [Hc Hy].
  rewrite Hy, Hc. reflexivity.
Qed.

Lemma basename_app x y :
  has_char "/" y = false -> basename (x +:+ y) = basename x +:+ y.
Proof.
  intros Hy. induction x as [|c x IH]; simpl.
  - apply basename_no_slash, Hy.
  - rewrite has_char_app, Hy, orb_false_r.
    destruct (has_char "/" x); [exact IH|].
    destruct (Ascii.eqb c "/"); reflexivity.
Qed.

Lemma lower_app x y : lower (x +:+ y) = lower x +:+ lower y.
Proof.
  induction x as [|c x IH]; simpl; [reflexivity|]. rewrite IH. reflexivity.
Qed.

Lemma string_length_app x y :
  String.length (x +:+ y) = (String.length x + String.length y)%nat.
Proof.
  induction x as [|c x IH]; simpl; [reflexivity|]. rewrite IH. reflexivity.
Qed.

Lemma substring_all y : substring 0 (String.length y) y = y.
Proof.
  induction y as [|c y IH]; simpl; [reflexivity|]. rewrite IH. reflexivity.
Qed.

Lemma substring_app x y :
  substring (String.length x) (String.length y) (x +:+ y) = y.
Proof.
  induction x as [|c x IH]; simpl; [apply substring_all|exact IH].
Qed.

Lemma endswith_app x y : endswith (x +:+ y) y = true.
Proof.
  unfold endswith. rewrite string_length_app.
  replace (String.length x + String.length y - String.length y)%nat
    with (String.length x) by lia.
  rewrite substring_app, String.eqb_refl, andb_true_r.
  apply Nat.leb_le. lia.
Qed.

(** The name the worker gives to an audio artifact is read as audio. *)
Lemma mp3_name_is_audio x :
  endswith (lower (basename (x +:+ ".mp3"))) ".mp3" = true.
Proof.
  rewrite basename_app by reflexivity.
  rewrite lower_app. apply endswith_app.
Qed.

End Suffixes.

Lemma status_eqb_eq (a b : job_status) : status_eqb a b = true <-> a = b.
Proof.
  unfold status_eqb. split.
  - intros H. apply String.eqb_eq in H.
    destruct a, b; try reflexivity; discriminate.
  - intros ->. apply String.eqb_refl.
Qed.

(** C9. [get_file] answers 404 for an unknown identifier, 400 for a job
    whose status is not completed, and 404 for a completed job whose
    artifact is not on disk; a file is served only for a completed job,
    with type audio/mpeg when its name ends in .mp3, as the names of audio
    artifacts do, and video/mp4 otherwise. *)
Theorem get_file_status_gate (E : environment) (downloads : gmap string job)
    (download_id : string) :
  (downloads !! download_id = None ->
   get_file E downloads download_id = JsonError 404 "Download not found")
  /\ (forall j, downloads !! download_id = Some j ->
        status j <> Completed ->
        get_file E downloads download_id = JsonError 400 "Download not completed")
  /\ (forall j, downloads !! download_id = Some j ->
        status j = Completed ->
        path_exists E (filename j) = false ->
        get_file E downloads download_id = JsonError 404 "File not found")
  /\ (forall j, downloads !! download_id = Some j ->
        status j = Completed ->
        path_exists E (filename j) = true ->
        exists disposition,
          get_file E downloads download_id
          = FileResponse (filename j)
              (if endswith (lower (basename (filename j))) ".mp3"
               then "audio/mpeg" else "video/mp4")
              disposition)
  /\ (forall j stem, downloads !! download_id = Some j ->
        status j = Completed ->
        path_exists E (filename j) = true ->
        filename j = stem +:+ ".mp3" ->
        exists disposition,
          get_file E downloads download_id
          = FileResponse (filename j) "audio/mpeg" disposition)
  /\ (forall path mimetype disposition,
        get_file E downloads download_id
        = FileResponse path mimetype disposition ->
        exists j, downloads !! download_id = Some j
                  /\ status j = Completed
                  /\ path = filename j
                  /\ path_exists E path = true).
Proof.
  assert (forall j, downloads !! download_id = Some j ->
            status j = Completed ->
            path_exists E (filename j) = true ->
            exists disposition,
              get_file E downloads download_id
              = FileResponse (filename j)
                  (if endswith (lower (basename (filename j))) ".mp3"
                   then "audio/mpeg" else "video/mp4")
                  disposition) as Hserve.
  { intros j Hj Hs He. unfold get_file. rewrite Hj.
    assert (status_eqb (status j) Completed = true) as ->
      by (apply status_eqb_eq; exact Hs).
    rewrite He. cbn [negb].
    destruct (endswith (lower (basename (filename j))) ".mp3");
      eexists; reflexivity. }
  split; [|split; [|split; [|split; [|split]]]].
  - intros H. unfold get_file. rewrite H. reflexivity.
  - intros j Hj Hs. unfold get_file. rewrite Hj.
    destruct (status_eqb (status j) Completed) eqn:Hc; [|reflexivity].
    apply status_eqb_eq in Hc. contradiction.
  - intros j Hj Hs He. unfold get_file. rewrite Hj.
    assert (status_eqb (status j) Completed = true) as ->
      by (apply status_eqb_eq; exact Hs).
    rewrite He. reflexivity.
  - exact Hserve.
  - intros j stem Hj Hs He Hn.
    destruct (Hserve j Hj Hs He) as [disposition Hd].
    exists disposition. rewrite Hd. f_equal.
    rewrite Hn, mp3_name_is_audio. reflexivity.
  - intros path mimetype disposition. unfold get_file.
    destruct (downloads !! download_id) as [j|]; [|discriminate].
    destruct (status_eqb (status j) Completed) eqn:Hc; [|discriminate].
    destruct (path_exists E (filename j)) eqn:He; [|discriminate].
    cbn [negb].
    destruct (endswith (lower (basename (filename j))) ".mp3");
      intros [= <- _ _]; exists j; apply status_eqb_eq in Hc; auto.
Qed.

Lemma negative_quality_unchanged_witness :
  start_download {| req_url := Some "https://example.com/v1";
                    req_quality := Some (-5) |} "id-1"
  = (JsonDownloadId "id-1",
     Some {| thread_url := "https://example.com/v1";
             thread_download_id := "id-1"; thread_quality_height := -5 |})
  /\ format (build_ydl_opts env_ok (-5))
     = "bestvideo[height<=-5][ext=mp4]+bestaudio[ext=m4a]/bestvideo[height<=-5]+bestaudio/best[height<=-5]/best".
Proof.
  assert ("https://example.com/v1" <> EmptyString) as Hurl by discriminate.
  destruct (negative_quality_unchanged env_ok "https://example.com/v1" "id-1"
              (-5) Hurl) as (H1 & H2 & _).
  split.
  - apply H1. lia.
  - apply H2. lia.
Defined.

Lemma get_file_status_gate_witness :
  get_file env_ok
    {[ "id-1" := set_status Completed
                   (set_filename "/app/downloads/A b.mp4" new_job) ]} "id-1"
  = FileResponse "/app/downloads/A b.mp4" "video/mp4"
      ("attachment; filename=" +:+ double_quote +:+ "A b.mp4" +:+ double_quote
         +:+ "; filename*=UTF-8''A%20b.mp4")
  /\ get_file env_ok {[ "id-1" := new_job ]} "id-1"
     = JsonError 400 "Download not completed".
Proof.
  split; [vm_compute; reflexivity|].
  destruct (get_file_status_gate env_ok {[ "id-1" := new_job ]} "id-1")
    as (_ & H & _).
  apply (H new_job); [reflexivity|discriminate].
Defined.

(* ------------------------------------------------------------------ *)
(** ** Running the worker's computations                                *)
(* ------------------------------------------------------------------ *)

Section Runs.

Context {A B : Type}.
Implicit Types (r : gmap string job) (t : list event) (j : job).

Lemma after_nil (x : result A * gmap string job * list event) :
  after [] x = x.
Proof. destruct x as [[b r2] t2]. reflexivity. Qed.

Lemma after_after t1 t2 (x : result A * gmap string job * list event) :
  after t1 (after t2 x) = after (t1 ++ t2) x.
Proof. destruct x as [[b r2] t]. simpl. rewrite app_assoc. reflexivity. Qed.

Lemma run_ret_bind (a : A) (k : A -> M B) r : (ret a ≫= k) r = k a r.
Proof.
  unfold mbind, M_bind, bind, ret.
  destruct (k a r) as [[b r2] t2]. reflexivity.
Qed.

Lemma run_raise_bind (e : string) (k : A -> M B) r :
  (raise e ≫= k) r = (Raise e, r, []).
Proof. reflexivity. Qed.

Lemma run_emit_bind (l : label) (k : unit -> M B) r :
  (emit l ≫= k) r = after [(l, r)] (k tt r).
Proof. reflexivity. Qed.

Lemma setfield_insert download_id (f : job -> job) r j :
  setfield download_id f (<[download_id := j]> r)
  = (Ok tt, <[download_id := f j]> r, [(LWrite, <[download_id := f j]> r)]).
Proof.
  unfold setfield. rewrite lookup_insert_eq, insert_insert_eq. reflexivity.
Qed.

Lemma run_setfield_bind download_id (f : job -> job) (k : unit -> M B) r j :
  (setfield download_id f ≫= k) (<[download_id := j]> r)
  = after [(LWrite, <[download_id := f j]> r)]
      (k tt (<[download_id := f j]> r)).
Proof.
  unfold mbind, M_bind, bind. rewrite setfield_insert. reflexivity.
Qed.

End Runs.

(* ------------------------------------------------------------------ *)
(** ** The progress hook                                                *)
(* ------------------------------------------------------------------ *)




(* ------------------------------------------------------------------ *)
(** ** Rules for specifications on one record                           *)
(* ------------------------------------------------------------------ *)

Section Logic.

Context (R : label -> job -> job -> Prop) (download_id : string).
Implicit Types (r : gmap string job) (t : list event) (j : job)
  (P : job -> Prop).

Lemma path_app r t1 t2 :
  path R download_id r t1 ->
  path R download_id (last_registry r t1) t2 ->
  path R download_id r (t1 ++ t2).
Proof.
  revert r. induction t1 as [|[l r'] t1 IH]; intros r H1 H2; [exact H2|].
  simpl in *. destruct H1 as [Hs H1]. split; [exact Hs|]. apply IH; assumption.
Qed.

Lemma last_registry_app r t1 t2 :
  last_registry r (t1 ++ t2) = last_registry (last_registry r t1) t2.
Proof.
  revert r. induction t1 as [|[l r'] t1 IH]; intros r; [reflexivity|].
  simpl. apply IH.
Qed.

Lemma run_lift {A} (x : result A) r : lift x r = (x, r, []).
Proof. destruct x; reflexivity. Qed.

Lemma triple_weaken {A} P P' (m : M A) (Q Q' : result A -> job -> Prop) :
  triple R download_id P m Q ->
  (forall j, P' j -> P j) ->
  (forall res j, Q res j -> Q' res j) ->
  triple R download_id P' m Q'.
Proof.
  intros H HP HQ r j Hj. specialize (H r j (HP j Hj)).
  destruct (m (<[download_id := j]> r)) as [[res r'] t].
  destruct H as (Hp & Hl & j' & Hr & Hq). eauto 10.
Qed.

Lemma triple_pure {A} (phi : Prop) P (m : M A) Q :
  (phi -> triple R download_id P m Q) ->
  triple R download_id (fun j => phi /\ P j) m Q.
Proof. intros H r j [Hphi Hj]. exact (H Hphi r j Hj). Qed.

Lemma triple_ret {A} P (a : A) :
  triple R download_id P (ret a) (fun res j => res = Ok a /\ P j).
Proof. intros r j Hj. simpl. eauto 10. Qed.

Lemma triple_raise {A} P (e : string) :
  triple R download_id P (raise e : M A) (fun res j => res = Raise e /\ P j).
Proof. intros r j Hj. simpl. eauto 10. Qed.

Lemma triple_lift {A} P (x : result A) :
  triple R download_id P (lift x) (fun res j => res = x /\ P j).
Proof. intros r j Hj. rewrite run_lift. simpl. eauto 10. Qed.

Lemma triple_emit P (l : label) :
  (forall j, P j -> R l j j) ->
  triple R download_id P (emit l) (fun res j => res = Ok tt /\ P j).
Proof.
  intros HR r j Hj. simpl. split; [|eauto 10].
  split; [|exact I]. exists j, j. rewrite lookup_insert_eq. auto.
Qed.

Lemma triple_setfield P (f : job -> job) :
  (forall j, P j -> R LWrite j (f j)) ->
  triple R download_id P (setfield download_id f)
    (fun res j => res = Ok tt /\ exists j0, P j0 /\ j = f j0).
Proof.
  intros HR r j Hj. rewrite setfield_insert. simpl. split; [|eauto 10].
  split; [|exact I]. exists j, (f j). rewrite !lookup_insert_eq. auto.
Qed.

Lemma triple_bind {A B} P (Q1 : result A -> job -> Prop)
    (Q : result B -> job -> Prop) (m : M A) (k : A -> M B) :
  triple R download_id P m Q1 ->
  (forall a, triple R download_id (Q1 (Ok a)) (k a) Q) ->
  (forall e j, Q1 (Raise e) j -> Q (Raise e) j) ->
  triple R download_id P (m ≫= k) Q.
Proof.
  intros Hm Hk He r j Hj. specialize (Hm r j Hj).
  unfold mbind, M_bind, bind.
  destruct (m (<[download_id := j]> r)) as [[res r1] t1].
  destruct Hm as (Hp1 & Hl1 & j1 & -> & Hq1).
  destruct res as [a|e]; [|eauto 10].
  specialize (Hk a r j1 Hq1).
  destruct (k a (<[download_id := j1]> r)) as [[res2 r2] t2].
  destruct Hk as (Hp2 & Hl2 & j2 & -> & Hq2). simpl.
  split; [apply path_app; [exact Hp1|rewrite Hl1; exact Hp2]|].
  split; [rewrite last_registry_app, Hl1; exact Hl2|]. eauto.
Qed.

Lemma triple_try {A} P (Q1 Q : result A -> job -> Prop)
    (m : M A) (h : string -> M A) :
  triple R download_id P m Q1 ->
  (forall e, triple R download_id (Q1 (Raise e)) (h e) Q) ->
  (forall a j, Q1 (Ok a) j -> Q (Ok a) j) ->
  triple R download_id P (try_except m h) Q.
Proof.
  intros Hm Hh Ha r j Hj. specialize (Hm r j Hj).
  unfold try_except.
  destruct (m (<[download_id := j]> r)) as [[res r1] t1].
  destruct Hm as (Hp1 & Hl1 & j1 & -> & Hq1).
  destruct res as [a|e]; [eauto 10|].
  specialize (Hh e r j1 Hq1).
  destruct (h e (<[download_id := j1]> r)) as [[res2 r2] t2].
  destruct Hh as (Hp2 & Hl2 & j2 & -> & Hq2). simpl.
  split; [apply path_app; [exact Hp1|rewrite Hl1; exact Hp2]|].
  split; [rewrite last_registry_app, Hl1; exact Hl2|]. eauto.
Qed.

(** The same rules for an invariant [P] that holds whatever the
    outcome. *)
Lemma inv_lift {A} P (x : result A) :
  triple R download_id P (lift x) (fun _ j => P j).
Proof.
  apply (triple_weaken P P _ (fun res j => res = x /\ P j));
    [apply triple_lift|auto|intros res j [_ H]; exact H].
Qed.

Lemma inv_ret {A} P (a : A) :
  triple R download_id P (ret a) (fun _ j => P j).
Proof.
  apply (triple_weaken P P _ (fun res j => res = Ok a /\ P j));
    [apply triple_ret|auto|intros res j [_ H]; exact H].
Qed.

Lemma inv_setfield P (f : job -> job) :
  (forall j, P j -> R LWrite j (f j) /\ P (f j)) ->
  triple R download_id P (setfield download_id f) (fun _ j => P j).
Proof.
  intros H.
  apply (triple_weaken P P _
           (fun res j => res = Ok tt /\ exists j0, P j0 /\ j = f j0)).
  - apply triple_setfield. intros j Hj. apply H, Hj.
  - auto.
  - intros res j (_ & j0 & Hj0 & ->). apply H, Hj0.
Qed.

Lemma inv_bind {A B} P (m : M A) (k : A -> M B) :
  triple R download_id P m (fun _ j => P j) ->
  (forall a, triple R download_id P (k a) (fun _ j => P j)) ->
  triple R download_id P (m ≫= k) (fun _ j => P j).
Proof.
  intros Hm Hk.
  apply (triple_bind P (fun _ j => P j) _ m k); [exact Hm|exact Hk|auto].
Qed.

End Logic.

(* ------------------------------------------------------------------ *)
(** ** The worker moves its record along [job_step]                    *)
(* ------------------------------------------------------------------ *)

Section Worker.

Variables (E : environment) (url download_id : string) (quality_height : Z).

Local Abbreviation names := (named E url quality_height).
Local Abbreviation R := (job_step (named E url quality_height)).
Local Abbreviation opts := (build_ydl_opts E quality_height).
Local Abbreviation spec := (triple (job_step (named E url quality_height)) download_id).

Lemma status_next_refl s : live s = true -> status_next s s = true.
Proof. destruct s; simpl; congruence. Qed.

(** A step that cannot raise, followed by the rest. *)
Lemma spec_seq {B} (P P1 : job -> Prop) (m : M unit) (k : M B) Q :
  spec P m (fun res j => res = Ok tt /\ P1 j) ->
  spec P1 k Q ->
  spec P (m ;; k) Q.
Proof.
  intros Hm Hk.
  apply (triple_bind _ _ P (fun res j => res = Ok tt /\ P1 j) Q m).
  - exact Hm.
  - intros a. apply triple_pure. intros _. exact Hk.
  - intros e j [He _]. discriminate.
Qed.

Lemma spec_write (P P1 : job -> Prop) (f : job -> job) :
  (forall j, P j -> R LWrite j (f j) /\ P1 (f j)) ->
  spec P (setfield download_id f) (fun res j => res = Ok tt /\ P1 j).
Proof.
  intros H.
  apply (triple_weaken _ _ P P _
           (fun res j => res = Ok tt /\ exists j0, P j0 /\ j = f j0)).
  - apply triple_setfield. intros j Hj. apply H, Hj.
  - auto.
  - intros res j (Hres & j0 & Hj0 & ->). split; [exact Hres|apply H, Hj0].
Qed.

Lemma spec_emit (P P1 : job -> Prop) (l : label) :
  (forall j, P j -> event_allowed l j /\ P1 j) ->
  spec P (emit l) (fun res j => res = Ok tt /\ P1 j).
Proof.
  intros H.
  apply (triple_weaken _ _ P P _ (fun res j => res = Ok tt /\ P j)).
  - apply triple_emit. intros j Hj. apply step_event, H, Hj.
  - auto.
  - intros res j [Hres Hj]. split; [exact Hres|apply H, Hj].
Qed.

(** A write of a field other than status, filename and error. *)
Lemma field_write n (f : job -> job) :
  (forall j, status (f j) = status j) ->
  (forall j, filename (f j) = filename j) ->
  (forall j, error (f j) = error j) ->
  forall j, during_attempt n j -> R LWrite j (f j) /\ during_attempt n (f j).
Proof.
  intros Hs Hf He j [(Hl & Hn & Hr) Hst].
  assert (working (f j)) as Hw.
  { unfold working. rewrite Hs, Hf, He. auto. }
  split.
  - apply step_work; [split; auto|exact Hw|].
    rewrite Hs. apply status_next_refl, Hl.
  - split; [exact Hw|]. rewrite Hs. exact Hst.
Qed.

Lemma progress_hook_spec n d :
  spec (during_attempt n) (progress_hook d download_id)
    (fun _ j => during_attempt n j).
Proof.
  unfold progress_hook.
  apply inv_bind; [apply inv_lift|intros st].
  destruct (py_eq_str st "downloading").
  - apply inv_bind; [apply inv_lift|intros positive].
    destruct positive; [|apply inv_ret].
    apply inv_bind; [apply inv_lift|intros ratio].
    apply inv_bind; [apply inv_setfield, field_write; reflexivity|intros _].
    apply inv_bind; [apply inv_setfield, field_write; reflexivity|intros _].
    apply inv_setfield, field_write; reflexivity.
  - destruct (py_eq_str st "finished"); [|apply inv_ret].
    apply inv_bind; [apply inv_setfield, field_write; reflexivity|intros _].
    apply inv_setfield. intros j [(Hl & Hn & Hr) Hst].
    assert (working (set_status Processing j)) as Hw by (split; auto).
    split; [|split; [exact Hw|right; reflexivity]].
    apply step_work; [split; auto|exact Hw|].
    destruct Hst as [Hst|Hst]; rewrite Hst; [destruct n|]; reflexivity.
Qed.

Lemma run_callbacks_spec n ds :
  spec (during_attempt n) (run_callbacks ds download_id)
    (fun _ j => during_attempt n j).
Proof.
  induction ds as [|d ds IH]; simpl; [apply inv_ret|].
  apply inv_bind; [apply progress_hook_spec|intros _; exact IH].
Qed.


Lemma two_pow_attempt n :
  (2 ^ Z.of_nat n =? 1) = match n with O => true | S _ => false end.
Proof.
  destruct n as [|n]; [reflexivity|].
  apply Z.eqb_neq.
  assert (2 ^ 1 <= 2 ^ Z.of_nat (S n)) by (apply Z.pow_le_mono_r; lia).
  change (2 ^ 1) with 2 in *. lia.
Qed.

Lemma download_attempt_spec n :
  spec (fun j => working j /\ status j = attempt_status n)
    (download_attempt E opts url download_id quality_height 3 n)
    (fun res j =>
       match res with
       | Ok None => completed_with names j
       | Ok (Some _) => working j /\ status j = Retrying
       | Raise _ => working j
       end).
Proof.
  unfold download_attempt.
  apply (triple_try _ _ _
           (fun res j =>
              match res with
              | Ok None => completed_with names j
              | Ok (Some _) => False
              | Raise _ => during_attempt n j
              end)).
  - apply (spec_seq _ (during_attempt n)).
    { apply spec_emit. intros j [Hw Hs].
      split; [|split; auto].
      split; [exact Hw|]. rewrite Hs. destruct n; reflexivity. }
    apply (triple_bind _ _ _ (fun _ j => during_attempt n j)).
    { apply run_callbacks_spec. }
    2:{ intros e j H. exact H. }
    intros _.
    apply (triple_bind _ _ _
             (fun res j =>
                res = prepared (extract_download E opts url n)
                /\ during_attempt n j)).
    { apply triple_lift. }
    2:{ intros e j [_ H]. exact H. }
    intros raw. apply triple_pure. intros Hraw.
    assert (names (artifact_name quality_height raw)) as Hname.
    { exists n, raw. split; [symmetry; exact Hraw|reflexivity]. }
    apply (spec_seq _ (filed names)).
    { apply spec_write. intros j [(Hl & Hf & He) Hs].
      split.
      - apply step_filename; [split; auto| |exact Hname].
        destruct Hs as [Hs|Hs]; rewrite Hs; [destruct n|]; discriminate.
      - split; [exact Hl|]. split; [exact He|exact Hname]. }
    apply (spec_seq _ (completed_with names)).
    { apply spec_write. intros j (Hl & He & Hn).
      split; [apply step_completed; assumption|].
      split; [reflexivity|]. split; assumption. }
    apply (spec_seq _ (completed_with names)).
    { apply spec_write. intros j (Hs & He & Hn).
      split; [apply step_progress; assumption|].
      split; [exact Hs|]. split; assumption. }
    apply (triple_weaken _ _ (completed_with names) _ _
             (fun res j => res = Ok None /\ completed_with names j)).
    + apply triple_ret.
    + auto.
    + intros res j [-> H]. exact H.
  - intros e. cbn beta iota.
    destruct (is_file_lock e).
    + destruct (n <? 3 - 1)%nat.
      * apply (spec_seq _ (during_attempt n)).
        { apply spec_emit. intros j [Hw Hs].
          split; [|split; auto].
          split; [exact Hw|]. rewrite two_pow_attempt.
          destruct n; simpl in Hs; tauto. }
        apply (spec_seq _ (fun j => working j /\ status j = Retrying)).
        { apply spec_write. intros j [(Hl & Hf & He) Hs].
          assert (working (set_status Retrying j)) as Hw by (split; auto).
          split; [|split; [exact Hw|reflexivity]].
          apply step_work; [split; auto|exact Hw|].
          destruct Hs as [Hs|Hs]; rewrite Hs; [destruct n|]; reflexivity. }
        apply (triple_weaken _ _ (fun j => working j /\ status j = Retrying) _ _
                 (fun res j => res = Ok (Some e)
                               /\ (working j /\ status j = Retrying))).
        -- apply triple_ret.
        -- auto.
        -- intros res j [-> H]. exact H.
      * apply (triple_weaken _ _ (during_attempt n) _ _
                 (fun res j => res = Raise e /\ during_attempt n j)).
        -- apply triple_raise.
        -- auto.
        -- intros res j [-> [H _]]. exact H.
    + apply (triple_weaken _ _ (during_attempt n) _ _
               (fun res j => res = Raise e /\ during_attempt n j)).
      * apply triple_raise.
      * auto.
      * intros res j [-> [H _]]. exact H.
  - intros [e|] j H; [destruct H|exact H].
Qed.

Lemma retry_loop_spec k n last_error :
  spec (fun j => working j /\ status j = attempt_status n)
    (retry_loop E opts url download_id quality_height 3 (seq n k) last_error)
    (fun res j =>
       match res with
       | Ok _ => completed_with names j
       | Raise _ => working j
       end).
Proof.
  revert n last_error. induction k as [|k IH]; intros n last_error.
  - simpl.
    set (P := fun j => working j /\ status j = attempt_status n).
    destruct last_error as [e|].
    + apply (triple_weaken _ _ P P _ (fun res j => res = Raise e /\ P j));
        [apply triple_raise|auto|].
      intros res j [-> [H _]]. exact H.
    + apply (triple_weaken _ _ P P _
               (fun res j =>
                  res = Raise "exceptions must derive from BaseException"
                  /\ P j));
        [apply triple_raise|auto|].
      intros res j [-> [H _]]. exact H.
  - simpl.
    eapply triple_bind; [apply (download_attempt_spec n)| |].
    + intros [e|].
      * apply (IH (S n) (Some e)).
      * apply (triple_weaken _ _ (completed_with names) (completed_with names)
                 _ (fun res j => res = Ok tt /\ completed_with names j));
          [apply triple_ret|auto|].
        intros res j [-> H]. exact H.
    + intros e j H. exact H.
Qed.

Lemma try_setitem {A} (j0 : job) (k : unit -> M A) (h : string -> M A)
    (r : gmap string job) :
  try_except (setitem download_id j0 ≫= k) h r
  = after [(LWrite, <[download_id := j0]> r)]
      (try_except (k tt) h (<[download_id := j0]> r)).
Proof.
  unfold try_except, mbind, M_bind, bind, setitem.
  destruct (k tt (<[download_id := j0]> r)) as [[[a|e] r1] t1]; simpl;
    [reflexivity|].
  destruct (h e r1) as [[b r2] t2]. reflexivity.
Qed.

(** A write made before the download calls begin. *)
Lemma starting_write (f : job -> job) (s : job_status) :
  (forall j, status j = Starting -> status (f j) = s) ->
  (forall j, filename (f j) = filename j) ->
  (forall j, error (f j) = error j) ->
  status_next Starting s = true -> live s = true ->
  forall j, working j /\ status j = Starting ->
            R LWrite j (f j) /\ working (f j) /\ status (f j) = s.
Proof.
  intros Hs Hf He Hn Hl j [(Hlj & Hfj & Hej) Hst].
  assert (working (f j)) as Hw.
  { unfold working. rewrite (Hs j Hst), Hf, He. auto. }
  split; [|split; [exact Hw|apply Hs, Hst]].
  apply step_work; [split; auto|exact Hw|]. rewrite (Hs j Hst), Hst. exact Hn.
Qed.

(** The whole run: the first event creates the record, the later ones
    move it along [job_step], and the run ends with the job completed or
    failed. *)
Theorem download_video_path (r : gmap string job) :
  match download_video E url download_id quality_height r with
  | (res, r', t) =>
      res = Ok tt
      /\ exists t',
          t = (LWrite, <[download_id := new_job]> r) :: t'
          /\ path R download_id (<[download_id := new_job]> r) t'
          /\ last_registry (<[download_id := new_job]> r) t' = r'
          /\ exists j', r' = <[download_id := j']> r
                        /\ (completed_with names j'
                            \/ exists e, failed_with e j')
  end.
Proof.
  unfold download_video. rewrite try_setitem.
  set (Q := fun (res : result unit) j =>
              res = Ok tt
              /\ (completed_with names j \/ exists e, failed_with e j)).
  set (P0 := fun j => working j /\ status j = Starting).
  set (Q1 := fun (res : result unit) j =>
               match res with
               | Ok _ => completed_with names j
               | Raise _ => working j
               end).
  match goal with
  | |- context [try_except ?m ?h (<[download_id := new_job]> r)] =>
      assert (spec (fun j => j = new_job) (try_except m h) Q) as Hspec
  end.
  { apply (triple_try _ _ _ Q1).
    - cbv zeta.
      apply (triple_weaken _ _ P0 _ _ Q1); [|intros j ->; repeat split|auto].
      apply (spec_seq _ P0).
      { destruct (cookiefile opts).
        - apply spec_emit. intros j [Hw Hs]. repeat split; auto; apply Hw.
        - apply triple_ret. }
      apply (spec_seq _ P0).
      { apply spec_emit. intros j [Hw Hs]. repeat split; auto; apply Hw. }
      apply (triple_bind _ _ _
               (fun res j => res = extract_info E url /\ P0 j)).
      { apply triple_lift. }
      2:{ intros e j [_ [H _]]. exact H. }
      intros info. apply triple_pure. intros _.
      apply (spec_seq _ P0).
      { apply spec_write, starting_write; auto. }
      apply (spec_seq _ P0).
      { apply spec_write, starting_write; auto. }
      apply (spec_seq _ P0).
      { apply spec_write, starting_write; auto. }
      apply (spec_seq _ (fun j => working j /\ status j = attempt_status 0)).
      { apply spec_write, starting_write; auto. }
      apply (retry_loop_spec 3 0 None).
    - intros e. cbn beta iota.
      apply (spec_seq _ (fun j => status j = Error
                                  /\ filename j = EmptyString
                                  /\ error j = None)).
      { apply spec_write. intros j Hw.
        split; [apply step_error, Hw|].
        destruct Hw as (_ & Hf & He). auto. }
      set (P1 := fun j => status j = Error /\ filename j = EmptyString
                          /\ error j = None).
      apply (triple_weaken _ _ P1 P1 _
               (fun res j => res = Ok tt /\ failed_with e j)); [|auto|].
      + apply spec_write. intros j (Hs & Hf & He).
        split; [apply step_message; assumption|]. repeat split; assumption.
      + intros res j [-> H]. split; [reflexivity|right; exists e; exact H].
    - intros [] j H. split; [reflexivity|left; exact H]. }
  specialize (Hspec r new_job eq_refl).
  match goal with
  | |- context [try_except ?m ?h (<[download_id := new_job]> r)] =>
      destruct (try_except m h (<[download_id := new_job]> r))
        as [[res r'] t]
  end.
  destruct Hspec as (Hp & Hl & j' & Hr & Hres & Hq). simpl.
  split; [exact Hres|]. exists t. eauto 10.
Qed.

End Worker.

(* ------------------------------------------------------------------ *)
(** ** What a reader can see along a run                                *)
(* ------------------------------------------------------------------ *)

Section Paths.

Context (R : label -> job -> job -> Prop) (download_id : string).
Implicit Types (r : gmap string job) (t : list event) (a b : job).

(** The record at any event is reached from the initial record. *)
Lemma path_lookup r t k lk rk a :
  path R download_id r t ->
  r !! download_id = Some a ->
  t !! k = Some (lk, rk) ->
  exists b, rk !! download_id = Some b
            /\ rtc (fun x y => exists l, R l x y) a b.
Proof.
  revert r k a. induction t as [|[l r'] t IH]; intros r k a Hp Ha Hk;
    [discriminate|].
  destruct Hp as [(a' & b & Ha' & Hb & Hstep) Hp].
  rewrite Ha in Ha'. injection Ha' as <-.
  destruct k as [|k].
  - injection Hk as <- <-. exists b. split; [exact Hb|].
    apply rtc_once. exists l. exact Hstep.
  - destruct (IH r' k b Hp Hb Hk) as (c & Hc & Hreach).
    exists c. split; [exact Hc|].
    eapply rtc_l; [exists l; exact Hstep|exact Hreach].
Qed.

(** The record at a later event is reached from the record at an earlier
    one. *)
Lemma path_between r t i k li ri lk rk :
  path R download_id r t ->
  t !! i = Some (li, ri) ->
  t !! k = Some (lk, rk) ->
  (i <= k)%nat ->
  exists a b, ri !! download_id = Some a /\ rk !! download_id = Some b
              /\ rtc (fun x y => exists l, R l x y) a b.
Proof.
  revert r i k. induction t as [|[l r'] t IH]; intros r i k Hp Hi Hk Hle;
    [discriminate|].
  destruct Hp as [(a' & b & Ha' & Hb & Hstep) Hp].
  destruct i as [|i].
  - injection Hi as <- <-. destruct k as [|k].
    + injection Hk as <- <-. exists b, b. split; [exact Hb|].
      split; [exact Hb|apply rtc_refl].
    + destruct (path_lookup r' t k lk rk b Hp Hb Hk) as (c & Hc & Hreach).
      exists b, c. auto.
  - destruct k as [|k]; [lia|].
    apply (IH r' i k Hp Hi Hk). lia.
Qed.

(** The step that leads to an event. *)
Lemma path_step r t i l ri :
  path R download_id r t ->
  t !! i = Some (l, ri) ->
  exists a b, ri !! download_id = Some b /\ R l a b.
Proof.
  revert r i. induction t as [|[l' r'] t IH]; intros r i Hp Hi;
    [discriminate|].
  destruct Hp as [(a' & b & Ha' & Hb & Hstep) Hp].
  destruct i as [|i].
  - injection Hi as <- <-. eauto.
  - exact (IH r' i Hp Hi).
Qed.

End Paths.

Section Steps.

Context (names : string -> Prop).
Implicit Types (a b : job).

Local Abbreviation step := (fun x y => exists l, job_step names l x y).

(** What holds of the record at every point of a run. *)
Lemma step_state l a b :
  job_step names l a b ->
  working a \/ filed names a \/ completed_with names a
  \/ (status a = Error /\ filename a = EmptyString) ->
  working b \/ filed names b \/ completed_with names b
  \/ (status b = Error /\ filename b = EmptyString).
Proof.
  intros Hstep Ha.
  destruct Hstep as [l j Hev|j j' Hw Hw' Hn|j name Hw Hs Hname|j Hl He Hn
                    |j Hs|j Hw|j e Hs He].
  - exact Ha.
  - left. exact Hw'.
  - right. left. destruct Hw as (Hl & _ & He). repeat split; assumption.
  - right. right. left. repeat split; assumption.
  - destruct Ha as [(Hl & _)|[(Hl & _)|[H|[Hs' _]]]];
      try (rewrite Hs in Hl; discriminate);
      try (rewrite Hs in Hs'; discriminate).
    right. right. left. exact H.
  - right. right. right. destruct Hw as (_ & Hf & _). split; [reflexivity|exact Hf].
  - destruct Ha as [(Hl & _)|[(Hl & _)|[(Hs' & _)|[_ Hf]]]];
      try (rewrite Hs in Hl; discriminate);
      try (rewrite Hs in Hs'; discriminate).
    right. right. right. split; assumption.
Qed.

Lemma reach_state a b :
  rtc step a b ->
  working a \/ filed names a \/ completed_with names a
  \/ (status a = Error /\ filename a = EmptyString) ->
  working b \/ filed names b \/ completed_with names b
  \/ (status b = Error /\ filename b = EmptyString).
Proof.
  induction 1 as [|x y z [l Hstep] _ IH]; [auto|].
  intros Hx. apply IH. exact (step_state l x y Hstep Hx).
Qed.

(** After the flip to completed only the progress is written. *)
Lemma step_from_completed l a b :
  job_step names l a b -> status a = Completed ->
  b = a \/ b = set_progress (PInt 100) a.
Proof.
  intros Hstep Ha.
  destruct Hstep as [l j Hev|j j' Hw Hw' Hn|j name Hw Hs Hname|j Hl He Hn
                    |j Hs|j Hw|j e Hs He];
    try (destruct Hw as (Hl & _)); try (rewrite Ha in *; discriminate); auto.
Qed.

(** After the flip to error only the message is written, once. *)
Lemma step_from_error l a b :
  job_step names l a b -> status a = Error ->
  b = a \/ (error a = None /\ exists e, b = set_error (Some e) a).
Proof.
  intros Hstep Ha.
  destruct Hstep as [l j Hev|j j' Hw Hw' Hn|j name Hw Hs Hname|j Hl He Hn
                    |j Hs|j Hw|j e Hs He];
    try (destruct Hw as (Hl & _)); try (rewrite Ha in *; discriminate); eauto.
Qed.

Lemma reach_from_completed a b :
  rtc step a b -> status a = Completed ->
  b = a \/ b = set_progress (PInt 100) a.
Proof.
  induction 1 as [|x y z [l Hstep] _ IH]; [auto|].
  intros Hx.
  destruct (step_from_completed l x y Hstep Hx) as [->| ->].
  - apply IH, Hx.
  - destruct (IH Hx) as [->| ->]; right; reflexivity.
Qed.

Lemma reach_from_error a b :
  rtc step a b -> status a = Error ->
  b = a \/ (error a = None /\ exists e, b = set_error (Some e) a).
Proof.
  induction 1 as [|x y z [l Hstep] _ IH]; [auto|].
  intros Hx.
  destruct (step_from_error l x y Hstep Hx) as [->|(Hnone & e & ->)].
  - apply IH, Hx.
  - destruct (IH Hx) as [->|(He & _)]; [eauto|discriminate].
Qed.

(** Once past [Downloading], the status does not come back to it. *)
Lemma step_no_return l a b :
  job_step names l a b ->
  status a <> Starting -> status a <> Downloading ->
  status b <> Starting /\ status b <> Downloading.
Proof.
  intros Hstep H1 H2.
  destruct Hstep as [l j Hev|j j' Hw Hw' Hn|j name Hw Hs Hname|j Hl He Hn
                    |j Hs|j Hw|j e Hs He]; cbn [status set_filename set_status
                      set_progress set_error]; auto; try (split; discriminate).
  destruct (status j), (status j'); try discriminate; try contradiction;
    split; discriminate.
Qed.

Lemma reach_no_return a b :
  rtc step a b ->
  status a <> Starting -> status a <> Downloading ->
  status b <> Starting /\ status b <> Downloading.
Proof.
  induction 1 as [|x y z [l Hstep] _ IH]; [auto|].
  intros H1 H2.
  destruct (step_no_return l x y Hstep H1 H2) as [H3 H4]. auto.
Qed.

(** An event that is not a write leaves the record as it is allowed to
    be at that event. *)
Lemma step_label l a b :
  job_step names l a b -> l <> LWrite -> a = b /\ event_allowed l b.
Proof.
  intros Hstep Hl. destruct Hstep; try contradiction. auto.
Qed.

End Steps.

(* ------------------------------------------------------------------ *)
(** ** The records of a run                                             *)
(* ------------------------------------------------------------------ *)

Section Run.

Variables (E : environment) (url download_id : string) (quality_height : Z)
  (r : gmap string job).

Local Abbreviation names := (named E url quality_height).
Local Abbreviation run_trace := (trace E url download_id quality_height r).
Local Abbreviation step :=
  (fun x y => exists l, job_step (named E url quality_height) l x y).

Lemma trace_shape :
  exists t',
    run_trace = (LWrite, <[download_id := new_job]> r) :: t'
    /\ path (job_step names) download_id (<[download_id := new_job]> r) t'.
Proof.
  pose proof (download_video_path E url download_id quality_height r) as H.
  unfold trace.
  destruct (download_video E url download_id quality_height r) as [[res r'] t].
  destruct H as (_ & t' & -> & Hp & _). exists t'. split; [reflexivity|exact Hp].
Qed.

(** Every event of the run shows a record, reached from the new one. *)
Lemma trace_record i l ri :
  run_trace !! i = Some (l, ri) ->
  exists b, ri !! download_id = Some b /\ rtc step new_job b.
Proof.
  destruct trace_shape as (t' & -> & Hp). intros Hi.
  destruct i as [|i].
  - injection Hi as <- <-. exists new_job.
    split; [apply lookup_insert_eq|apply rtc_refl].
  - apply (path_lookup _ _ _ t' i l ri new_job Hp); [|exact Hi].
    apply lookup_insert_eq.
Qed.

Lemma trace_between i k li ri lk rk :
  run_trace !! i = Some (li, ri) ->
  run_trace !! k = Some (lk, rk) ->
  (i <= k)%nat ->
  exists a b, ri !! download_id = Some a /\ rk !! download_id = Some b
              /\ rtc step a b.
Proof.
  intros Hi Hk Hle.
  destruct (trace_record _ _ _ Hk) as (b & Hb & Hreach).
  pose proof trace_shape as (t' & Ht & Hp). rewrite Ht in Hi, Hk.
  destruct i as [|i].
  - injection Hi as <- <-. exists new_job, b.
    split; [apply lookup_insert_eq|]. split; assumption.
  - destruct k as [|k]; [lia|].
    apply (path_between _ _ _ t' i k li ri lk rk Hp Hi Hk). lia.
Qed.

Lemma trace_label i l ri :
  run_trace !! i = Some (l, ri) ->
  l <> LWrite ->
  exists b, ri !! download_id = Some b /\ event_allowed l b.
Proof.
  intros Hi Hl.
  pose proof trace_shape as (t' & Ht & Hp). rewrite Ht in Hi.
  destruct i as [|i]; [injection Hi as <- <-; contradiction|].
  destruct (path_step _ _ _ t' i l ri Hp Hi) as (a & b & Hb & Hstep).
  destruct (step_label _ _ _ _ Hstep Hl) as [_ Hev]. eauto.
Qed.

End Run.

Lemma new_job_working : working new_job.
Proof. repeat split. Qed.

Lemma named_audio_nonempty (E : environment) (url name : string) :
  named E url 0 name -> name <> EmptyString.
Proof.
  intros (n & raw & _ & ->). unfold artifact_name. simpl.
  destruct (rsplit_dot_head raw); discriminate.
Qed.







(* ------------------------------------------------------------------ *)
(** ** Submission and the first poll                                    *)
(* ------------------------------------------------------------------ *)

(** C4, as the code has it.  [start_download] answers with the identifier
    and starts the worker without writing to the registry; the record is
    inserted by the first statement of the worker, with status starting,
    progress 0 and no error.  From that first step on every poll finds the
    record; a poll served before it finds what the registry held at
    submission, which is nothing for a fresh identifier. *)
Theorem record_inserted_by_worker (E : environment) (data : download_request)
    (uuid4 : string) (th : thread) (r : gmap string job) :
  snd (start_download data uuid4) = Some th ->
  fst (start_download data uuid4) = JsonDownloadId uuid4
  /\ thread_download_id th = uuid4
  /\ (exists t',
        trace E (thread_url th) uuid4 (thread_quality_height th) r
        = (LWrite, <[uuid4 := new_job]> r) :: t')
  /\ get_progress (<[uuid4 := new_job]> r) uuid4 = JsonJob new_job
  /\ (status new_job = Starting /\ progress new_job = PInt 0
      /\ error new_job = None)
  /\ (forall i l ri,
        trace E (thread_url th) uuid4 (thread_quality_height th) r !! i
        = Some (l, ri) ->
        exists j, get_progress ri uuid4 = JsonJob j)
  /\ head (observable E (thread_url th) uuid4 (thread_quality_height th) r)
     = Some r
  /\ (r !! uuid4 = None ->
      get_progress r uuid4 = JsonError 404 "Download not found").
Proof.
  unfold start_download.
  destruct (String.eqb (default EmptyString (req_url data)) EmptyString);
    simpl; [discriminate|].
  intros [= <-]. simpl.
  split; [reflexivity|]. split; [reflexivity|].
  split.
  { destruct (trace_shape E (default EmptyString (req_url data)) uuid4
                match req_quality data with
                | Some q => if 4320 <? q then 4320 else q
                | None => 4320
                end r) as (t' & Ht & _).
    exists t'. exact Ht. }
  split; [unfold get_progress; rewrite lookup_insert_eq; reflexivity|].
  split; [repeat split|].
  split.
  { intros i l ri Hi.
    destruct (trace_record _ _ _ _ _ _ _ _ Hi) as (j & Hj & _).
    exists j. unfold get_progress. rewrite Hj. reflexivity. }
  split; [reflexivity|].
  intros Hr. unfold get_progress. rewrite Hr. reflexivity.
Qed.

Lemma record_inserted_by_worker_witness :
  get_progress
    (<["id-1" := new_job]> (∅ : gmap string job)) "id-1" = JsonJob new_job
  /\ exists t',
      trace env_ok "https://example.com/v1" "id-1" 4320 ∅
      = (LWrite, <["id-1" := new_job]> ∅) :: t'.
Proof.
  assert (snd (start_download
                 {| req_url := Some "https://example.com/v1";
                    req_quality := None |} "id-1")
          = Some {| thread_url := "https://example.com/v1";
                    thread_download_id := "id-1";
                    thread_quality_height := 4320 |}) as Hth by reflexivity.
  destruct (record_inserted_by_worker env_ok _ _ _ ∅ Hth)
    as (_ & _ & Ht & Hp & _).
  split; [exact Hp|exact Ht].
Defined.

(** C4 as stated fails: the identifier has been returned, the worker has
    not made its first step, and the poll answers 404. *)
Lemma first_poll_counterexample :
  fst (start_download {| req_url := Some "https://example.com/v1";
                         req_quality := None |} "id-1")
  = JsonDownloadId "id-1"
  /\ head (observable env_ok "https://example.com/v1" "id-1" 4320 ∅) = Some ∅
  /\ get_progress ∅ "id-1" = JsonError 404 "Download not found".
Proof. repeat split. Qed.

(* ------------------------------------------------------------------ *)
(** ** The status around a retry                                        *)
(* ------------------------------------------------------------------ *)


(* ------------------------------------------------------------------ *)
(** ** The run, call by call                                            *)
(* ------------------------------------------------------------------ *)

Section Calls.

Context (download_id : string).
Implicit Types (r : gmap string job) (t : list event) (j : job)
  (fs : list (job -> job)).

Lemma run_bind_ok {A B} (m : M A) (k : A -> M B) r a r1 t1 :
  m r = (Ok a, r1, t1) -> (m ≫= k) r = after t1 (k a r1).
Proof. intros H. unfold mbind, M_bind, bind. rewrite H. reflexivity. Qed.

Lemma run_bind_raise {A B} (m : M A) (k : A -> M B) r e r1 t1 :
  m r = (Raise e, r1, t1) -> (m ≫= k) r = (Raise e, r1, t1).
Proof. intros H. unfold mbind, M_bind, bind. rewrite H. reflexivity. Qed.

Lemma try_bind_ok {A B} (m : M A) (k : A -> M B) (h : string -> M B)
    r a r1 t1 :
  m r = (Ok a, r1, t1) ->
  try_except (m ≫= k) h r = after t1 (try_except (k a) h r1).
Proof.
  intros H. unfold try_except. rewrite (run_bind_ok m k r a r1 t1 H).
  destruct (k a r1) as [[[b|e] r2] t2]; simpl; [reflexivity|].
  destruct (h e r2) as [[c r3] t3]. simpl. rewrite app_assoc. reflexivity.
Qed.

Lemma writes_app r j fs1 fs2 :
  writes download_id r j (fs1 ++ fs2)
  = writes download_id r j fs1
    ++ writes download_id r (apply_writes fs1 j) fs2.
Proof.
  revert j. induction fs1 as [|f fs1 IH]; intros j; [reflexivity|].
  simpl. rewrite IH. reflexivity.
Qed.

Lemma apply_writes_app fs1 fs2 j :
  apply_writes (fs1 ++ fs2) j = apply_writes fs2 (apply_writes fs1 j).
Proof. apply fold_left_app. Qed.

Lemma download_calls_app t1 t2 :
  download_calls (t1 ++ t2) = download_calls t1 ++ download_calls t2.
Proof. apply flat_map_app. Qed.

Lemma sleeps_app t1 t2 : sleeps (t1 ++ t2) = sleeps t1 ++ sleeps t2.
Proof. apply flat_map_app. Qed.

Lemma sleep_then_retrying_app t1 t2 :
  sleep_then_retrying download_id t1 ->
  sleep_then_retrying download_id t2 ->
  sleep_then_retrying download_id (t1 ++ t2).
Proof.
  intros H1 H2. induction t1 as [|[l r1] t1 IH]; [exact H2|].
  destruct H1 as [Hl H1]. simpl. split; [|exact (IH H1)].
  destruct l; auto.
  destruct t1 as [|[l2 r2] t1]; [destruct Hl|]. exact Hl.
Qed.

(** A list of writes holds no call and no sleep. *)
Lemma writes_quiet r j fs :
  download_calls (writes download_id r j fs) = []
  /\ sleeps (writes download_id r j fs) = []
  /\ sleep_then_retrying download_id (writes download_id r j fs).
Proof.
  revert j. induction fs as [|f fs IH]; intros j; [repeat split|].
  destruct (IH (f j)) as (H1 & H2 & H3). simpl. auto.
Qed.

(** The progress hook is a list of writes to the record, and its outcome
    does not depend on the registry. *)
Lemma progress_hook_writes (d : gmap string pyval) :
  exists res fs, forall r j,
    progress_hook d download_id (<[download_id := j]> r)
    = (res, <[download_id := apply_writes fs j]> r,
       writes download_id r j fs).
Proof.
  unfold progress_hook. cbv zeta.
  destruct (dict_item d "status") as [st|e].
  2:{ exists (Raise e), []. intros r j. reflexivity. }
  destruct (py_eq_str st "downloading") eqn:Hdl.
  - destruct (py_gt_0 (py_or (dict_get d "total_bytes" PNone)
                         (dict_get d "total_bytes_estimate" (PInt 0))))
      as [[|]|e] eqn:Hgt.
    + destruct (py_truediv (dict_get d "downloaded_bytes" (PInt 0))
                  (py_or (dict_get d "total_bytes" PNone)
                     (dict_get d "total_bytes_estimate" (PInt 0))))
        as [ratio|e] eqn:Hdiv.
      * exists (Ok tt),
          [set_progress (PFloat (py_round1 (ratio * 100)));
           set_speed (dict_get d "speed" (PInt 0));
           set_eta (dict_get d "eta" (PInt 0))].
        intros r j. cbn [lift]. rewrite run_ret_bind, Hdl.
        cbn [lift]. rewrite run_ret_bind.
        cbn [lift]. rewrite run_ret_bind.
        rewrite !run_setfield_bind, setfield_insert. reflexivity.
      * exists (Raise e), []. intros r j.
        cbn [lift]. rewrite run_ret_bind, Hdl.
        cbn [lift]. rewrite run_ret_bind.
        reflexivity.
    + exists (Ok tt), []. intros r j.
      cbn [lift]. rewrite run_ret_bind, Hdl.
      cbn [lift]. rewrite run_ret_bind.
      reflexivity.
    + exists (Raise e), []. intros r j.
      cbn [lift]. rewrite run_ret_bind, Hdl.
      reflexivity.
  - destruct (py_eq_str st "finished") eqn:Hfin.
    + exists (Ok tt), [set_progress (PInt 100); set_status Processing].
      intros r j. cbn [lift]. rewrite run_ret_bind, Hdl, Hfin.
      rewrite run_setfield_bind, setfield_insert. reflexivity.
    + exists (Ok tt), []. intros r j.
      cbn [lift]. rewrite run_ret_bind, Hdl, Hfin.
      reflexivity.
Qed.

Lemma run_callbacks_writes (ds : list (gmap string pyval)) :
  exists res fs, forall r j,
    run_callbacks ds download_id (<[download_id := j]> r)
    = (res, <[download_id := apply_writes fs j]> r,
       writes download_id r j fs).
Proof.
  induction ds as [|d ds (res2 & fs2 & H2)].
  - exists (Ok tt), []. intros r j. reflexivity.
  - destruct (progress_hook_writes d) as ([[]|e] & fs1 & H1).
    + exists res2, (fs1 ++ fs2). intros r j. simpl.
      rewrite (run_bind_ok _ _ _ _ _ _ (H1 r j)), H2.
      simpl. rewrite writes_app, apply_writes_app. reflexivity.
    + exists (Raise e), fs1. intros r j. simpl.
      rewrite (run_bind_raise _ _ _ _ _ _ (H1 r j)). reflexivity.
Qed.

End Calls.

Section Policy.

Variables (E : environment) (url download_id : string) (quality_height : Z).
Implicit Types (r : gmap string job) (t : list event) (j : job).

Local Abbreviation opts := (build_ydl_opts E quality_height).
Local Abbreviation outcome :=
  (call_outcome E url download_id quality_height).

(** The callbacks of a call are writes, and the outcome of the call is
    theirs or else the engine's. *)
Lemma call_outcome_writes n :
  exists res fs,
    (forall r j,
        run_callbacks (callbacks (extract_download E opts url n)) download_id
          (<[download_id := j]> r)
        = (res, <[download_id := apply_writes fs j]> r,
           writes download_id r j fs))
    /\ outcome n = match res with
                   | Ok _ => prepared (extract_download E opts url n)
                   | Raise e => Raise e
                   end.
Proof.
  destruct (run_callbacks_writes download_id
              (callbacks (extract_download E opts url n)))
    as (res & fs & Hrun).
  exists res, fs. split; [exact Hrun|].
  unfold call_outcome. cbv zeta. destruct res as [[]|e].
  - rewrite (run_bind_ok _ _ _ _ _ _ (Hrun ∅ new_job)), run_lift. reflexivity.
  - rewrite (run_bind_raise _ _ _ _ _ _ (Hrun ∅ new_job)). reflexivity.
Qed.

(** The [except] clause of the retry loop. *)
Lemma except_clause_run n e r j :
  (if is_file_lock e then
     if (n <? 3 - 1)%nat then
       emit (LSleep (2 ^ Z.of_nat n)) ;;
       setfield download_id (set_status Retrying) ;;
       ret (Some e)
     else raise e
   else raise e) (<[download_id := j]> r)
  = if is_file_lock e && (n <? 2)%nat then
      (Ok (Some e), <[download_id := set_status Retrying j]> r,
       [(LSleep (2 ^ Z.of_nat n), <[download_id := j]> r);
        (LWrite, <[download_id := set_status Retrying j]> r)])
    else (Raise e, <[download_id := j]> r, []).
Proof.
  change (3 - 1)%nat with 2%nat.
  destruct (is_file_lock e); [|reflexivity].
  destruct (n <? 2)%nat; [|reflexivity].
  cbn [andb]. rewrite run_emit_bind, run_setfield_bind. reflexivity.
Qed.

(** One turn of the retry loop, event by event. *)
Lemma download_attempt_run n :
  exists fs, forall r j,
    let j1 := apply_writes fs j in
    let called := (LDownload n, <[download_id := j]> r)
                  :: writes download_id r j fs in
    download_attempt E opts url download_id quality_height 3 n
      (<[download_id := j]> r)
    = match outcome n with
      | Ok raw =>
          let j2 := set_filename (artifact_name quality_height raw) j1 in
          let j3 := set_status Completed j2 in
          let j4 := set_progress (PInt 100) j3 in
          (Ok None, <[download_id := j4]> r,
           called ++ [(LWrite, <[download_id := j2]> r);
                      (LWrite, <[download_id := j3]> r);
                      (LWrite, <[download_id := j4]> r)])
      | Raise e =>
          if is_file_lock e && (n <? 2)%nat then
            (Ok (Some e), <[download_id := set_status Retrying j1]> r,
             called ++ [(LSleep (2 ^ Z.of_nat n), <[download_id := j1]> r);
                        (LWrite,
                         <[download_id := set_status Retrying j1]> r)])
          else (Raise e, <[download_id := j1]> r, called)
      end.
Proof.
  destruct (call_outcome_writes n) as (res & fs & Hrun & Hout).
  exists fs. intros r j j1 called. rewrite Hout.
  unfold download_attempt, try_except. cbv zeta.
  rewrite run_emit_bind.
  destruct res as [[]|e].
  - rewrite (run_bind_ok _ _ _ _ _ _ (Hrun r j)).
    destruct (prepared (extract_download E opts url n)) as [raw|e].
    + cbn [lift]. rewrite run_ret_bind.
      rewrite !run_setfield_bind. reflexivity.
    + cbn [lift]. rewrite run_raise_bind. cbn [after app].
      rewrite except_clause_run.
      rewrite ?app_nil_r.
      destruct (is_file_lock e && (n <? 2)%nat); cbn [after];
        rewrite ?app_nil_r; reflexivity.
  - rewrite (run_bind_raise _ _ _ _ _ _ (Hrun r j)). cbn [after app].
    rewrite except_clause_run.
    rewrite ?app_nil_r.
    destruct (is_file_lock e && (n <? 2)%nat); cbn [after];
      rewrite ?app_nil_r; reflexivity.
Qed.

(** What one turn contributes: one call, at most one wait, and either
    the completed record, or the order to go on, or the exception. *)
Lemma download_attempt_summary n r j :
  exists t j',
    download_calls t = [n]
    /\ sleep_then_retrying download_id t
    /\ match outcome n with
       | Ok raw =>
           download_attempt E opts url download_id quality_height 3 n
             (<[download_id := j]> r)
           = (Ok None, <[download_id := j']> r, t)
           /\ sleeps t = []
           /\ status j' = Completed
           /\ filename j' = artifact_name quality_height raw
       | Raise e =>
           if is_file_lock e && (n <? 2)%nat then
             download_attempt E opts url download_id quality_height 3 n
               (<[download_id := j]> r)
             = (Ok (Some e), <[download_id := j']> r, t)
             /\ sleeps t = [2 ^ Z.of_nat n]
           else
             download_attempt E opts url download_id quality_height 3 n
               (<[download_id := j]> r)
             = (Raise e, <[download_id := j']> r, t)
             /\ sleeps t = []
       end.
Proof.
  destruct (download_attempt_run n) as (fs & Hrun).
  specialize (Hrun r j). cbv zeta in Hrun.
  destruct (writes_quiet download_id r j fs) as (Hc & Hs & Hw).
  destruct (outcome n) as [raw|e].
  - eexists. eexists. split; [|split; [|split; [exact Hrun|]]].
    + rewrite download_calls_app. cbn [download_calls flat_map fst app].
      fold (download_calls (writes download_id r j fs)).
      rewrite Hc. reflexivity.
    + apply sleep_then_retrying_app; [|repeat split].
      split; [exact I|exact Hw].
    + split; [|split; reflexivity].
      rewrite sleeps_app. cbn [sleeps flat_map fst app].
      fold (sleeps (writes download_id r j fs)). rewrite Hs. reflexivity.
  - destruct (is_file_lock e && (n <? 2)%nat).
    + eexists. eexists. split; [|split; [|split; [exact Hrun|]]].
      * rewrite download_calls_app. cbn [download_calls flat_map fst app].
        fold (download_calls (writes download_id r j fs)).
        rewrite Hc. reflexivity.
      * apply sleep_then_retrying_app.
        -- split; [exact I|exact Hw].
        -- split; [|repeat split].
           eexists. split; [apply lookup_insert_eq|].
           rewrite insert_insert_eq. reflexivity.
      * rewrite sleeps_app. cbn [sleeps flat_map fst app].
        fold (sleeps (writes download_id r j fs)). rewrite Hs. reflexivity.
    + eexists. eexists. split; [|split; [|split; [exact Hrun|]]].
      * cbn [download_calls flat_map fst app].
        fold (download_calls (writes download_id r j fs)).
        rewrite Hc. reflexivity.
      * split; [exact I|exact Hw].
      * cbn [sleeps flat_map fst app].
        fold (sleeps (writes download_id r j fs)). exact Hs.
Qed.

(** The retry loop makes the calls and the waits of the policy, and ends
    as the policy says. *)
Lemma retry_loop_policy k n last_error r j :
  (1 <= k)%nat -> (n + k = 3)%nat ->
  exists res t j',
    retry_loop E opts url download_id quality_height 3 (seq n k) last_error
      (<[download_id := j]> r)
    = (res, <[download_id := j']> r, t)
    /\ download_calls t = (retry_policy outcome k n).1.1
    /\ sleeps t = (retry_policy outcome k n).1.2
    /\ sleep_then_retrying download_id t
    /\ match (retry_policy outcome k n).2 with
       | Ok raw =>
           res = Ok tt /\ status j' = Completed
           /\ filename j' = artifact_name quality_height raw
       | Raise e => res = Raise e
       end.
Proof.
  revert n last_error j. induction k as [|k IH]; intros n last_error j Hk Hn;
    [lia|].
  cbn [seq retry_loop retry_policy].
  destruct (download_attempt_summary n r j) as (t1 & j1 & Hc1 & Hw1 & H1).
  destruct (outcome n) as [raw|e].
  - destruct H1 as (Hrun & Hs1 & Hst & Hf).
    rewrite (run_bind_ok _ _ _ _ _ _ Hrun). cbn [after ret].
    exists (Ok tt), (t1 ++ []), j1. rewrite app_nil_r.
    split; [reflexivity|]. cbn [fst snd]. auto 10.
  - destruct (is_file_lock e); cbn [andb] in H1.
    + destruct k as [|k].
      * assert ((n <? 2)%nat = false) as Hlt by (apply Nat.ltb_ge; lia).
        rewrite Hlt in H1. destruct H1 as [Hrun Hs1].
        rewrite (run_bind_raise _ _ _ _ _ _ Hrun).
        exists (Raise e), t1, j1. cbn [fst snd]. auto 10.
      * assert ((n <? 2)%nat = true) as Hlt by (apply Nat.ltb_lt; lia).
        rewrite Hlt in H1. destruct H1 as [Hrun Hs1].
        rewrite (run_bind_ok _ _ _ _ _ _ Hrun).
        destruct (IH (S n) (Some e) j1 ltac:(lia) ltac:(lia))
          as (res & t2 & j2 & Hrun2 & Hc2 & Hs2 & Hw2 & Hres).
        rewrite Hrun2. cbn [after].
        exists res, (t1 ++ t2), j2.
        destruct (retry_policy outcome (S k) (S n)) as [[calls waits] pres].
        cbn [fst snd] in *.
        split; [reflexivity|].
        split; [rewrite download_calls_app, Hc1, Hc2; reflexivity|].
        split; [rewrite sleeps_app, Hs1, Hs2; reflexivity|].
        split; [apply sleep_then_retrying_app; assumption|exact Hres].
    + destruct H1 as [Hrun Hs1].
      rewrite (run_bind_raise _ _ _ _ _ _ Hrun).
      exists (Raise e), t1, j1. cbn [fst snd]. auto 10.
Qed.

Lemma try_emit {A} (l : label) (k : unit -> M A) (h : string -> M A) r :
  try_except (emit l ≫= k) h r = after [(l, r)] (try_except (k tt) h r).
Proof. apply (try_bind_ok (emit l) k h r tt r [(l, r)]). reflexivity. Qed.

Lemma try_ret {A B} (a : A) (k : A -> M B) (h : string -> M B) r :
  try_except (ret a ≫= k) h r = try_except (k a) h r.
Proof.
  rewrite (try_bind_ok (ret a) k h r a r []); [|reflexivity].
  apply after_nil.
Qed.

Lemma try_setfield {A} (f : job -> job) (k : unit -> M A)
    (h : string -> M A) r j :
  try_except (setfield download_id f ≫= k) h (<[download_id := j]> r)
  = after [(LWrite, <[download_id := f j]> r)]
      (try_except (k tt) h (<[download_id := f j]> r)).
Proof.
  apply (try_bind_ok (setfield download_id f) k h). apply setfield_insert.
Qed.

Lemma try_raise {A B} (e : string) (k : A -> M B) (h : string -> M B) r :
  try_except (raise e ≫= k) h r = h e r.
Proof.
  unfold try_except. rewrite run_raise_bind.
  destruct (h e r) as [[b r2] t2]. reflexivity.
Qed.

(** The [except] clause of [download_video]. *)
Lemma outer_except_run e r j :
  (setfield download_id (set_status Error) ;;
   setfield download_id (set_error (Some e))) (<[download_id := j]> r)
  = (Ok tt, <[download_id := set_error (Some e) (set_status Error j)]> r,
     [(LWrite, <[download_id := set_status Error j]> r);
      (LWrite,
       <[download_id := set_error (Some e) (set_status Error j)]> r)]).
Proof. rewrite run_setfield_bind, setfield_insert. reflexivity. Qed.

(** The whole run against the policy. *)
Lemma download_video_run r :
  exists t jf,
    download_video E url download_id quality_height r
    = (Ok tt, <[download_id := jf]> r, t)
    /\ sleep_then_retrying download_id t
    /\ match extract_info E url with
       | Raise e =>
           download_calls t = [] /\ sleeps t = []
           /\ status jf = Error /\ error jf = Some e
       | Ok _ =>
           download_calls t = (retry_policy outcome 3 0).1.1
           /\ sleeps t = (retry_policy outcome 3 0).1.2
           /\ match (retry_policy outcome 3 0).2 with
              | Ok raw =>
                  status jf = Completed
                  /\ filename jf = artifact_name quality_height raw
              | Raise e => status jf = Error /\ error jf = Some e
              end
       end.
Proof.
  unfold download_video. rewrite try_setitem. cbv zeta.
  assert (exists pre,
             download_calls pre = [] /\ sleeps pre = []
             /\ sleep_then_retrying download_id pre
             /\ forall (k : unit -> M unit) (h : string -> M unit),
                 try_except
                   (match cookiefile opts with
                    | Some cookie_path =>
                        emit (LPrint ("Using cookies from: " +:+ cookie_path))
                    | None => ret tt
                    end ≫= k) h (<[download_id := new_job]> r)
                 = after pre
                     (try_except (k tt) h (<[download_id := new_job]> r)))
    as (pre & Hpc & Hps & Hpw & Hpre).
  { destruct (cookiefile opts) as [cookie_path|].
    - eexists. split; [|split; [|split]];
        [| | |intros k h; apply try_emit]; repeat split.
    - exists []. split; [|split; [|split]]; try reflexivity.
      intros k h. rewrite try_ret. symmetry. apply after_nil. }
  rewrite Hpre. rewrite try_emit.
  destruct (extract_info E url) as [info|e].
  - cbn [lift]. rewrite try_ret. rewrite !try_setfield.
    match goal with
    | |- context [try_except _ _ (<[download_id := ?j5]> r)] =>
        destruct (retry_loop_policy 3 0 None r j5 ltac:(lia) ltac:(lia))
          as (res & t & j' & Hrun & Hc & Hs & Hw & Hres)
    end.
    unfold try_except at 1. rewrite Hrun.
    destruct (retry_policy outcome 3 0) as [[calls waits] pres].
    cbn [fst snd] in *.
    destruct pres as [raw|e].
    + destruct Hres as (-> & Hst & Hf). cbn [after].
      eexists. eexists. split; [reflexivity|].
      split; [|split; [|split]].
      * repeat apply sleep_then_retrying_app; try assumption; repeat split.
      * rewrite !download_calls_app, Hpc, Hc. reflexivity.
      * rewrite !sleeps_app, Hps, Hs. reflexivity.
      * split; assumption.
    + rewrite Hres, outer_except_run. cbn [after].
      eexists. eexists. split; [reflexivity|].
      split; [|split; [|split]].
      * repeat apply sleep_then_retrying_app; try assumption; repeat split.
      * rewrite !download_calls_app, Hpc, Hc. cbn. apply app_nil_r.
      * rewrite !sleeps_app, Hps, Hs. cbn. apply app_nil_r.
      * split; reflexivity.
  - cbn [lift]. rewrite try_raise, outer_except_run. cbn [after].
    eexists. eexists. split; [reflexivity|].
    split; [|split; [|split]].
    + repeat apply sleep_then_retrying_app; try assumption; repeat split.
    + rewrite !download_calls_app, Hpc. reflexivity.
    + rewrite !sleeps_app, Hps. reflexivity.
    + split; reflexivity.
Qed.

End Policy.

(* ------------------------------------------------------------------ *)
(** ** The retry policy                                                 *)
(* ------------------------------------------------------------------ *)

Lemma trace_final (E : environment) (url download_id : string)
    (quality_height : Z) (r : gmap string job) (t : list event) (jf : job) :
  download_video E url download_id quality_height r
  = (Ok tt, <[download_id := jf]> r, t) ->
  trace E url download_id quality_height r = t
  /\ final_job E url download_id quality_height r = Some jf.
Proof.
  intros H. unfold trace, final_job. rewrite H. cbn [fst snd].
  split; [reflexivity|apply lookup_insert_eq].
Qed.



(* ------------------------------------------------------------------ *)
(** ** The status around a wait                                         *)
(* ------------------------------------------------------------------ *)

Lemma sleep_then_retrying_lookup (download_id : string) (t : list event)
    (i : nat) (secs : Z) (r1 : gmap string job) :
  sleep_then_retrying download_id t ->
  t !! i = Some (LSleep secs, r1) ->
  exists j, r1 !! download_id = Some j
            /\ t !! S i
               = Some (LWrite, <[download_id := set_status Retrying j]> r1).
Proof.
  revert i. induction t as [|[l r] t IH]; intros i Hw Hi; [discriminate|].
  destruct Hw as [Hl Hw]. destruct i as [|i].
  - injection Hi as Hl1 Hr1. subst l r.
    destruct t as [|[l2 r2] t]; [contradiction|].
    destruct l2; try contradiction.
    destruct Hl as (j & Hj & Hr2). subst r2.
    exists j. split; [exact Hj|reflexivity].
  - exact (IH i Hw Hi).
Qed.



(* ------------------------------------------------------------------ *)
(** ** Two runs, end to end                                             *)
(* ------------------------------------------------------------------ *)

(** Two locked files and then a success: three calls, the waits 1 and 2,
    and the job completed with progress 100. *)
Example retry_then_success :
  download_calls (trace env_retry "https://example.com/v1" "id-1" 4320 ∅)
  = [0; 1; 2]%nat
  /\ sleeps (trace env_retry "https://example.com/v1" "id-1" 4320 ∅) = [1; 2]
  /\ final_job env_retry "https://example.com/v1" "id-1" 4320 ∅
     = Some (set_progress (PInt 100)
               (set_status Completed
                  (set_filename "/app/downloads/A b.mp4"
                     (set_status Processing
                        (set_progress (PInt 100)
                           (set_eta (PInt 3)
                              (set_speed (PFloat 1.5)
                                 (set_progress (PFloat 50)
                                    (set_status Retrying
                                       (set_status Downloading
                                          (set_duration (PInt 9)
                                             (set_thumbnail (PStr EmptyString)
                                                (set_title (u "A b")
                                                   new_job))))))))))))).
Proof. vm_compute. repeat split. Qed.

(** A submission without quality, the run of its worker, and the
    retrieval of the file. *)
Example submit_download_fetch :
  start_download {| req_url := Some "https://example.com/v1";
                    req_quality := None |} "id-1"
  = (JsonDownloadId "id-1",
     Some {| thread_url := "https://example.com/v1";
             thread_download_id := "id-1"; thread_quality_height := 4320 |})
  /\ status_code
       (get_file env_ok
          (download_video env_ok "https://example.com/v1" "id-1" 4320 ∅).1.2
          "id-1") = 200
  /\ status_code
       (get_file env_ok
          (<["id-1" := set_status Downloading new_job]> ∅) "id-1") = 400.
Proof. vm_compute. repeat split. Qed.

(* ================================================================== *)
(** * Further properties of the code                                    *)
(* ================================================================== *)

(* ------------------------------------------------------------------ *)
(** ** More on the sanitizer                                            *)
(* ------------------------------------------------------------------ *)

Section SanitizerMore.

Implicit Types (s t : pystr) (c : N) (b : bool).

Lemma keep_ord_bmp c : keep_ord c = (c <? 65536)%N.
Proof.
  unfold keep_ord. destruct (c <? 65536)%N eqn:H; [|reflexivity].
  apply N.ltb_lt in H.
  assert ((c <? 0x1F600)%N = true) as -> by (apply N.ltb_lt; lia).
  reflexivity.
Qed.

Lemma keep_ord_not_astral c : keep_ord c = true -> is_astral c = false.
Proof.
  rewrite keep_ord_bmp. intros H. apply N.ltb_lt in H.
  unfold is_astral.
  assert ((0x10000 <=? c)%N = false) as -> by (apply N.leb_gt; lia).
  reflexivity.
Qed.

Lemma filter_filter (f g : N -> bool) s :
  List.filter f (List.filter g s) = List.filter (fun x => g x && f x) s.
Proof.
  induction s as [|c s IH]; [reflexivity|].
  simpl. destruct (g c); simpl; [|exact IH].
  destruct (f c); rewrite IH; reflexivity.
Qed.

Lemma filter_ext_eq (f g : N -> bool) s :
  (forall c, f c = g c) -> List.filter f s = List.filter g s.
Proof.
  intros H. induction s as [|c s IH]; [reflexivity|].
  simpl. rewrite H, IH. reflexivity.
Qed.

(** The three filters of the sanitizer are one: the test on the emoji
    range and the pass over the astral planes remove nothing that the
    bound 65536 has not removed already. *)
Theorem sanitize_filename_one_filter s :
  sanitize_filename s
  = strip (re_sub_ws false
             (List.filter
                (fun c => negb (is_windows_invalid c) && (c <? 65536)%N) s)).
Proof.
  unfold sanitize_filename. do 2 f_equal.
  rewrite !filter_filter. apply filter_ext_eq. intros c.
  rewrite keep_ord_bmp.
  destruct (is_windows_invalid c); [reflexivity|]. cbn [negb andb].
  destruct (c <? 65536)%N eqn:H; [|reflexivity].
  rewrite <- keep_ord_bmp in H. rewrite (keep_ord_not_astral c H). reflexivity.
Qed.

Lemma lstrip_length s : (length (lstrip s) <= length s)%nat.
Proof.
  induction s as [|c s IH]; simpl; [lia|]. destruct (isspace c); simpl; lia.
Qed.

Lemma rstrip_length s : (length (rstrip s) <= length s)%nat.
Proof.
  induction s as [|c s IH]; simpl; [lia|].
  destruct (rstrip s); [destruct (isspace c)|]; simpl in *; lia.
Qed.

Lemma filter_length (f : N -> bool) s :
  (length (List.filter f s) <= length s)%nat.
Proof.
  induction s as [|c s IH]; simpl; [lia|]. destruct (f c); simpl; lia.
Qed.

(** The sanitizer only removes: its result is never longer than its
    argument. *)
Theorem sanitize_filename_length s :
  (length (sanitize_filename s) <= length s)%nat.
Proof.
  unfold sanitize_filename, strip.
  pose proof (filter_length (fun c => negb (is_windows_invalid c)) s).
  pose proof (filter_length keep_ord
                (List.filter (fun c => negb (is_windows_invalid c)) s)).
  pose proof (filter_length (fun c => negb (is_astral c))
                (List.filter keep_ord
                   (List.filter (fun c => negb (is_windows_invalid c)) s))).
  match goal with
  | |- (length (rstrip (lstrip (re_sub_ws false ?x))) <= _)%nat =>
      pose proof (re_sub_ws_length false x);
      pose proof (lstrip_length (re_sub_ws false x));
      pose proof (rstrip_length (lstrip (re_sub_ws false x)))
  end.
  lia.
Qed.

(** Whitespace that survives the substitution is the space. *)
Lemma sub_fixed_spaces b s c :
  re_sub_ws b s = s -> In c s -> isspace c = true -> c = 32%N.
Proof.
  revert b. induction s as [|x s IH]; intros b Hfix Hin Hc; [destruct Hin|].
  simpl in Hfix. destruct (isspace x) eqn:Hx.
  - destruct b.
    + pose proof (re_sub_ws_length true s) as Hl.
      rewrite Hfix in Hl. simpl in Hl. lia.
    + injection Hfix as Hx32 Hfix. destruct Hin as [<-|Hin]; [auto|].
      exact (IH true Hfix Hin Hc).
  - injection Hfix as Hfix. destruct Hin as [<-|Hin]; [congruence|].
    exact (IH false Hfix Hin Hc).
Qed.

(** The converse: single spaces between other characters are left as
    they are. *)
Lemma no_run_sub_fixed b s :
  (forall c, In c s -> isspace c = true -> c = 32%N) ->
  (forall i c d, s !! i = Some c -> s !! S i = Some d ->
                 ~ (isspace c = true /\ isspace d = true)) ->
  (b = true -> forall c, head s = Some c -> isspace c = false) ->
  re_sub_ws b s = s.
Proof.
  revert b. induction s as [|x s IH]; intros b H32 Hrun Hhead; [reflexivity|].
  simpl. destruct (isspace x) eqn:Hx.
  - destruct b.
    + rewrite (Hhead eq_refl x eq_refl) in Hx. discriminate.
    + rewrite (H32 x (or_introl eq_refl) Hx). f_equal.
      apply IH.
      * intros c Hc. apply H32. right. exact Hc.
      * intros i c d Hc Hd. exact (Hrun (S i) c d Hc Hd).
      * intros _ c Hc. destruct s as [|y s]; [discriminate|].
        injection Hc as ->.
        destruct (isspace c) eqn:Hy; [|reflexivity].
        exfalso. apply (Hrun 0%nat x c eq_refl eq_refl). auto.
  - f_equal. apply IH.
    + intros c Hc. apply H32. right. exact Hc.
    + intros i c d Hc Hd. exact (Hrun (S i) c d Hc Hd).
    + intros Hb. discriminate.
Qed.

Lemma rstrip_fixed s :
  (forall c, last s = Some c -> isspace c = false) -> rstrip s = s.
Proof.
  induction s as [|x s IH]; intros H; [reflexivity|].
  simpl. destruct s as [|y s].
  - simpl. rewrite (H x eq_refl). reflexivity.
  - rewrite IH; [reflexivity|]. intros c Hc. apply H. exact Hc.
Qed.

(** A title is left untouched exactly when it has nothing to remove: only
    characters that pass the filters, no whitespace but single spaces, and
    none of them at either end. *)
Theorem sanitize_filename_fixed_iff s :
  sanitize_filename s = s
  <-> Forall plain s
      /\ (forall c, In c s -> isspace c = true -> c = 32%N)
      /\ (forall i c d, s !! i = Some c -> s !! S i = Some d ->
                        ~ (isspace c = true /\ isspace d = true))
      /\ (forall c, head s = Some c -> isspace c = false)
      /\ (forall c, last s = Some c -> isspace c = false).
Proof.
  split.
  - intros H.
    pose proof (sanitize_plain s) as Hp.
    pose proof (sanitize_sub_fixed s) as Hf.
    rewrite H in Hp, Hf.
    split; [exact Hp|].
    split; [intros c; exact (sub_fixed_spaces false s c Hf)|].
    split; [intros i c d; exact (sub_fixed_no_run false s i c d Hf)|].
    split.
    + intros c Hc. rewrite <- H in Hc. unfold sanitize_filename, strip in Hc.
      match type of Hc with
      | head (rstrip (lstrip ?t)) = _ => set (w := t) in *
      end.
      destruct (lstrip w) as [|x l] eqn:Hl; [discriminate|].
      assert (isspace x = false) as Hx.
      { apply (lstrip_head w). rewrite Hl. reflexivity. }
      rewrite (rstrip_head (x :: l) x eq_refl Hx) in Hc.
      injection Hc as <-. exact Hx.
    + intros c Hc. rewrite <- H in Hc. unfold sanitize_filename, strip in Hc.
      exact (rstrip_last _ _ Hc).
  - intros (Hp & H32 & Hrun & Hhead & Hlast).
    unfold sanitize_filename.
    rewrite (Forall_filter_true (fun c => negb (is_windows_invalid c)) s).
    2:{ eapply Forall_impl; [exact Hp|]. intros c (-> & _ & _). reflexivity. }
    rewrite (Forall_filter_true keep_ord s).
    2:{ eapply Forall_impl; [exact Hp|]. intros c (_ & H & _). exact H. }
    rewrite (Forall_filter_true (fun c => negb (is_astral c)) s).
    2:{ eapply Forall_impl; [exact Hp|]. intros c (_ & _ & ->). reflexivity. }
    rewrite (no_run_sub_fixed false s H32 Hrun); [|discriminate].
    unfold strip. rewrite (lstrip_fixed s Hhead). apply rstrip_fixed, Hlast.
Qed.

Lemma re_sub_ws_all_space b s :
  Forall (fun c => isspace c = true) s ->
  re_sub_ws b s = [] \/ re_sub_ws b s = [32%N].
Proof.
  intros H. revert b. induction H as [|x s Hx Hs IH]; intros b; [left; reflexivity|].
  simpl. rewrite Hx. destruct b; [apply IH|].
  assert (re_sub_ws true s = []) as ->; [|right; reflexivity].
  clear IH. induction Hs as [|y s Hy Hs IH]; [reflexivity|].
  simpl. rewrite Hy. exact IH.
Qed.

(** A title made only of removed characters and whitespace, such as a
    title of emoji, is sanitized to the empty string. *)
Theorem sanitize_filename_nothing_left s :
  Forall (fun c => plain c -> isspace c = true) s ->
  sanitize_filename s = [].
Proof.
  intros H. unfold sanitize_filename.
  match goal with
  | |- strip (re_sub_ws false ?x) = _ =>
      assert (Forall (fun c => isspace c = true) x) as Hx
  end.
  { set (f1 := fun c => negb (is_windows_invalid c)).
    set (f3 := fun c => negb (is_astral c)).
    assert (Forall (fun c => f1 c = true) (List.filter f1 s)) as H1
      by apply Forall_filter_intro.
    assert (Forall (fun c => keep_ord c = true)
              (List.filter keep_ord (List.filter f1 s))) as H2
      by apply Forall_filter_intro.
    apply (Forall_filter_keep _ keep_ord) in H1.
    apply (Forall_filter_keep _ f3) in H1.
    apply (Forall_filter_keep _ f3) in H2.
    apply (Forall_filter_keep _ f1) in H.
    apply (Forall_filter_keep _ keep_ord) in H.
    apply (Forall_filter_keep _ f3) in H.
    rewrite Forall_forall in *. intros c Hc. apply (H c Hc).
    specialize (H1 c Hc). specialize (H2 c Hc). unfold f1 in H1.
    repeat split.
    - destruct (is_windows_invalid c); [discriminate|reflexivity].
    - exact H2.
    - apply keep_ord_not_astral, H2. }
  destruct (re_sub_ws_all_space false _ Hx) as [-> | ->]; reflexivity.
Qed.

Lemma sanitize_filename_nothing_left_witness :
  sanitize_filename [0x1F3AC%N; 32%N; 0x1F600%N; 63%N; 9%N] = [].
Proof.
  apply sanitize_filename_nothing_left.
  repeat constructor; intros (H1 & H2 & H3); try reflexivity; discriminate.
Defined.

End SanitizerMore.

(* ------------------------------------------------------------------ *)
(** ** Rules for chains of writes                                       *)
(* ------------------------------------------------------------------ *)

Section Chains.

Context (R : job -> job -> Prop) (download_id : string).
Implicit Types (r : gmap string job) (t : list event) (j : job)
  (P : job -> Prop).

Lemma chain_app r j t1 j1 t2 j2 :
  chain R download_id r j t1 j1 ->
  chain R download_id r j1 t2 j2 ->
  chain R download_id r j (t1 ++ t2) j2.
Proof.
  revert j. induction t1 as [|[l r1] t1 IH]; intros j H1 H2.
  - simpl in H1. subst j1. exact H2.
  - destruct H1 as (k & Hr & Hstep & H1). simpl. exists k. eauto.
Qed.

Lemma follows_weaken {A} P P' (m : M A) (Q Q' : result A -> job -> Prop) :
  follows R download_id P m Q ->
  (forall j, P' j -> P j) ->
  (forall res j, Q res j -> Q' res j) ->
  follows R download_id P' m Q'.
Proof.
  intros H HP HQ r j Hj. specialize (H r j (HP j Hj)).
  destruct (m (<[download_id := j]> r)) as [[res r'] t].
  destruct H as (j' & Hr & Hc & Hq). eauto.
Qed.

Lemma follows_pure {A} (phi : Prop) P (m : M A) Q :
  (phi -> follows R download_id P m Q) ->
  follows R download_id (fun j => phi /\ P j) m Q.
Proof. intros H r j [Hphi Hj]. exact (H Hphi r j Hj). Qed.

Lemma follows_ret {A} P (a : A) :
  follows R download_id P (ret a) (fun res j => res = Ok a /\ P j).
Proof. intros r j Hj. simpl. eauto. Qed.

Lemma follows_raise {A} P (e : string) :
  follows R download_id P (raise e : M A) (fun res j => res = Raise e /\ P j).
Proof. intros r j Hj. simpl. eauto. Qed.

Lemma follows_lift {A} P (x : result A) :
  follows R download_id P (lift x) (fun res j => res = x /\ P j).
Proof. intros r j Hj. rewrite run_lift. simpl. eauto. Qed.

Lemma follows_emit P (l : label) :
  (forall j, P j -> R j j) ->
  follows R download_id P (emit l) (fun res j => res = Ok tt /\ P j).
Proof.
  intros HR r j Hj. simpl. exists j. split; [reflexivity|].
  split; [|auto]. exists j. auto.
Qed.

Lemma follows_setfield P (P1 : job -> Prop) (f : job -> job) :
  (forall j, P j -> R j (f j) /\ P1 (f j)) ->
  follows R download_id P (setfield download_id f)
    (fun res j => res = Ok tt /\ P1 j).
Proof.
  intros HR r j Hj. rewrite setfield_insert. simpl.
  destruct (HR j Hj) as [Hstep H1].
  exists (f j). split; [reflexivity|]. split; [|auto].
  exists (f j). auto.
Qed.

Lemma follows_bind {A B} P (Q1 : result A -> job -> Prop)
    (Q : result B -> job -> Prop) (m : M A) (k : A -> M B) :
  follows R download_id P m Q1 ->
  (forall a, follows R download_id (Q1 (Ok a)) (k a) Q) ->
  (forall e j, Q1 (Raise e) j -> Q (Raise e) j) ->
  follows R download_id P (m ≫= k) Q.
Proof.
  intros Hm Hk He r j Hj. specialize (Hm r j Hj).
  unfold mbind, M_bind, bind.
  destruct (m (<[download_id := j]> r)) as [[res r1] t1].
  destruct Hm as (j1 & -> & Hc1 & Hq1).
  destruct res as [a|e]; [|eauto].
  specialize (Hk a r j1 Hq1).
  destruct (k a (<[download_id := j1]> r)) as [[res2 r2] t2].
  destruct Hk as (j2 & -> & Hc2 & Hq2). simpl.
  exists j2. split; [reflexivity|].
  split; [exact (chain_app _ _ _ _ _ _ Hc1 Hc2)|exact Hq2].
Qed.

Lemma follows_try {A} P (Q1 Q : result A -> job -> Prop)
    (m : M A) (h : string -> M A) :
  follows R download_id P m Q1 ->
  (forall e, follows R download_id (Q1 (Raise e)) (h e) Q) ->
  (forall a j, Q1 (Ok a) j -> Q (Ok a) j) ->
  follows R download_id P (try_except m h) Q.
Proof.
  intros Hm Hh Ha r j Hj. specialize (Hm r j Hj).
  unfold try_except.
  destruct (m (<[download_id := j]> r)) as [[res r1] t1].
  destruct Hm as (j1 & -> & Hc1 & Hq1).
  destruct res as [a|e]; [eauto|].
  specialize (Hh e r j1 Hq1).
  destruct (h e (<[download_id := j1]> r)) as [[res2 r2] t2].
  destruct Hh as (j2 & -> & Hc2 & Hq2). simpl.
  exists j2. split; [reflexivity|].
  split; [exact (chain_app _ _ _ _ _ _ Hc1 Hc2)|exact Hq2].
Qed.

(** A step that cannot raise, followed by the rest. *)
Lemma follows_seq {B} (P P1 : job -> Prop) (m : M unit) (k : M B) Q :
  follows R download_id P m (fun res j => res = Ok tt /\ P1 j) ->
  follows R download_id P1 k Q ->
  follows R download_id P (m ;; k) Q.
Proof.
  intros Hm Hk.
  apply (follows_bind P (fun res j => res = Ok tt /\ P1 j) Q m).
  - exact Hm.
  - intros a. apply follows_pure. intros _. exact Hk.
  - intros e j [He _]. discriminate.
Qed.

(** The rules for an invariant. *)
Lemma keeps_lift {A} P (x : result A) :
  follows R download_id P (lift x) (fun _ j => P j).
Proof.
  apply (follows_weaken P P _ (fun res j => res = x /\ P j));
    [apply follows_lift|auto|intros res j [_ H]; exact H].
Qed.

Lemma keeps_ret {A} P (a : A) :
  follows R download_id P (ret a) (fun _ j => P j).
Proof.
  apply (follows_weaken P P _ (fun res j => res = Ok a /\ P j));
    [apply follows_ret|auto|intros res j [_ H]; exact H].
Qed.

Lemma keeps_setfield P (f : job -> job) :
  (forall j, P j -> R j (f j) /\ P (f j)) ->
  follows R download_id P (setfield download_id f) (fun _ j => P j).
Proof.
  intros H.
  apply (follows_weaken P P _ (fun res j => res = Ok tt /\ P j));
    [apply follows_setfield; exact H|auto|intros res j [_ Hj]; exact Hj].
Qed.

Lemma keeps_bind {A B} P (m : M A) (k : A -> M B) :
  follows R download_id P m (fun _ j => P j) ->
  (forall a, follows R download_id P (k a) (fun _ j => P j)) ->
  follows R download_id P (m ≫= k) (fun _ j => P j).
Proof.
  intros Hm Hk.
  apply (follows_bind P (fun _ j => P j) _ m k); [exact Hm|exact Hk|auto].
Qed.

(** The record at an event of a chain, and between two events. *)
Lemma chain_lookup r j t j' k l rk :
  chain R download_id r j t j' ->
  t !! k = Some (l, rk) ->
  exists b, rk = <[download_id := b]> r /\ rtc R j b.
Proof.
  revert j k. induction t as [|[l1 r1] t IH]; intros j k Hc Hk; [discriminate|].
  destruct Hc as (j1 & -> & Hstep & Hc). destruct k as [|k].
  - injection Hk as <- <-. exists j1. split; [reflexivity|].
    apply rtc_once, Hstep.
  - destruct (IH j1 k Hc Hk) as (b & Hb & Hreach).
    exists b. split; [exact Hb|]. eapply rtc_l; eassumption.
Qed.

Lemma chain_between r j t j' i k li ri lk rk :
  chain R download_id r j t j' ->
  t !! i = Some (li, ri) -> t !! k = Some (lk, rk) -> (i <= k)%nat ->
  exists a b, ri = <[download_id := a]> r /\ rk = <[download_id := b]> r
              /\ rtc R a b.
Proof.
  revert j i k. induction t as [|[l1 r1] t IH]; intros j i k Hc Hi Hk Hle;
    [discriminate|].
  destruct Hc as (j1 & -> & Hstep & Hc). destruct i as [|i].
  - injection Hi as <- <-. destruct k as [|k].
    + injection Hk as <- <-. exists j1, j1. auto using rtc_refl.
    + destruct (chain_lookup _ _ _ _ _ _ _ Hc Hk) as (b & Hb & Hreach).
      exists j1, b. auto.
  - destruct k as [|k]; [lia|].
    apply (IH j1 i k Hc Hi Hk). lia.
Qed.

Lemma chain_end r j t j' : chain R download_id r j t j' -> rtc R j j'.
Proof.
  revert j. induction t as [|[l1 r1] t IH]; intros j Hc.
  - simpl in Hc. subst j'. apply rtc_refl.
  - destruct Hc as (j1 & _ & Hstep & Hc).
    eapply rtc_l; [exact Hstep|exact (IH j1 Hc)].
Qed.

End Chains.

(* ------------------------------------------------------------------ *)
(** ** More on the progress hook                                        *)
(* ------------------------------------------------------------------ *)

Lemma hook_step_refl (j : job) : hook_step j j.
Proof. repeat split; auto. Qed.

Lemma hook_step_trans (a b c : job) :
  hook_step a b -> hook_step b c -> hook_step a c.
Proof.
  intros (H1 & H2 & H3 & H4 & H5 & H6) (K1 & K2 & K3 & K4 & K5 & K6).
  repeat split; try congruence.
  destruct K6 as [K6|K6]; [rewrite K6; exact H6|right; exact K6].
Qed.

Lemma rtc_hook_step (a b : job) : rtc hook_step a b -> hook_step a b.
Proof.
  induction 1 as [|x y z Hxy _ IH]; [apply hook_step_refl|].
  exact (hook_step_trans _ _ _ Hxy IH).
Qed.

Lemma progress_hook_follows (d : gmap string pyval) (download_id : string) :
  follows hook_step download_id (fun _ => True)
    (progress_hook d download_id) (fun _ _ => True).
Proof.
  unfold progress_hook.
  apply keeps_bind; [apply keeps_lift|intros st].
  destruct (py_eq_str st "downloading").
  - apply keeps_bind; [apply keeps_lift|intros positive].
    destruct positive; [|apply keeps_ret].
    apply keeps_bind; [apply keeps_lift|intros ratio].
    apply keeps_bind;
      [apply keeps_setfield; intros j _; split; [|exact I];
       repeat split; auto|intros _].
    apply keeps_bind;
      [apply keeps_setfield; intros j _; split; [|exact I];
       repeat split; auto|intros _].
    apply keeps_setfield; intros j _; split; [|exact I]; repeat split; auto.
  - destruct (py_eq_str st "finished"); [|apply keeps_ret].
    apply keeps_bind;
      [apply keeps_setfield; intros j _; split; [|exact I];
       repeat split; auto|intros _].
    apply keeps_setfield; intros j _; split; [|exact I]; repeat split; auto.
Qed.

Lemma writes_frame (download_id : string) (r : gmap string job) (j : job)
    (fs : list (job -> job)) (l : label) (ri : gmap string job) :
  In (l, ri) (writes download_id r j fs) ->
  l = LWrite /\ forall k, k <> download_id -> ri !! k = r !! k.
Proof.
  revert j. induction fs as [|f fs IH]; intros j Hin; [destruct Hin|].
  destruct Hin as [Heq|Hin]; [|exact (IH (f j) Hin)].
  injection Heq as <- <-. split; [reflexivity|].
  intros k Hk. apply lookup_insert_ne. congruence.
Qed.

(** Whatever dictionary the engine passes, the hook leaves every other
    record of the registry alone, and in the record of its job it changes
    nothing but progress, speed and eta, and the status, which stays or
    becomes processing. *)
Theorem progress_hook_frame (d : gmap string pyval) (download_id : string)
    (r : gmap string job) (j : job) :
  r !! download_id = Some j ->
  exists j',
    (progress_hook d download_id r).1.2 = <[download_id := j']> r
    /\ title j' = title j /\ filename j' = filename j /\ error j' = error j
    /\ thumbnail j' = thumbnail j /\ duration j' = duration j
    /\ (status j' = status j \/ status j' = Processing)
    /\ (forall l ri, In (l, ri) (progress_hook d download_id r).2 ->
                     l = LWrite
                     /\ forall k, k <> download_id -> ri !! k = r !! k).
Proof.
  intros Hj.
  pose proof (progress_hook_follows d download_id r j I) as H.
  destruct (progress_hook_writes download_id d) as (res & fs & Hw).
  specialize (Hw r j).
  rewrite (insert_id r download_id j Hj) in H, Hw.
  rewrite Hw in H. destruct H as (j' & Hr & Hc & _). rewrite Hw. cbn [fst snd].
  exists j'. split; [exact Hr|].
  pose proof (rtc_hook_step _ _ (chain_end _ _ _ _ _ _ Hc))
    as (H1 & H2 & H3 & H4 & H5 & H6).
  do 6 (split; [assumption|]).
  intros l ri Hin. exact (writes_frame download_id r j fs l ri Hin).
Qed.

Lemma setfield_missing (download_id : string) (f : job -> job)
    (r : gmap string job) :
  r !! download_id = None ->
  setfield download_id f r = (Raise (key_error download_id), r, []).
Proof. intros H. unfold setfield. rewrite H. reflexivity. Qed.

(** The hook writes all it has to write or nothing: when it raises, or
    when the registry has no record for the job, the registry is left as
    it was and no event occurs; in particular the hook never inserts a
    record. *)
Theorem progress_hook_all_or_nothing (d : gmap string pyval)
    (download_id : string) (r : gmap string job) :
  r !! download_id = None
  \/ (exists e, (progress_hook d download_id r).1.1 = Raise e) ->
  (progress_hook d download_id r).1.2 = r
  /\ (progress_hook d download_id r).2 = [].
Proof.
  intros Hcase.
  destruct (r !! download_id) as [j|] eqn:Hj.
  - destruct Hcase as [Hnone|[e He]]; [discriminate|].
    revert He. rewrite <- (insert_id r download_id j Hj).
    unfold progress_hook. cbv zeta.
    destruct (dict_item d "status") as [st|e0]; [|intros _; split; reflexivity].
    cbn [lift]. rewrite run_ret_bind.
    destruct (py_eq_str st "downloading").
    + destruct (py_gt_0 _) as [[|]|e1]; cbn [lift].
      * rewrite run_ret_bind.
        destruct (py_truediv _ _) as [ratio|e2]; cbn [lift].
        -- rewrite run_ret_bind, !run_setfield_bind, setfield_insert.
           intros He. discriminate.
        -- intros _. split; reflexivity.
      * rewrite run_ret_bind. intros He. discriminate.
      * intros _. split; reflexivity.
    + destruct (py_eq_str st "finished").
      * rewrite run_setfield_bind, setfield_insert. intros He. discriminate.
      * intros He. discriminate.
  - clear Hcase. unfold progress_hook. cbv zeta.
    destruct (dict_item d "status") as [st|e0]; [|split; reflexivity].
    cbn [lift]. rewrite run_ret_bind.
    destruct (py_eq_str st "downloading").
    + destruct (py_gt_0 _) as [[|]|e1]; cbn [lift].
      * rewrite run_ret_bind.
        destruct (py_truediv _ _) as [ratio|e2]; cbn [lift].
        -- rewrite run_ret_bind.
           rewrite (run_bind_raise _ _ _ _ _ _ (setfield_missing _ _ _ Hj)).
           split; reflexivity.
        -- split; reflexivity.
      * rewrite run_ret_bind. split; reflexivity.
      * split; reflexivity.
    + destruct (py_eq_str st "finished").
      * rewrite (run_bind_raise _ _ _ _ _ _ (setfield_missing _ _ _ Hj)).
        split; reflexivity.
      * split; reflexivity.
Qed.

Lemma progress_hook_all_or_nothing_witness :
  (progress_hook hook_finished "id-1" ∅).1.2 = ∅
  /\ (progress_hook hook_finished "id-1" ∅).2 = [].
Proof.
  apply progress_hook_all_or_nothing. left. reflexivity.
Defined.

(** Callbacks the hook cannot read.  A dictionary without the key status
    raises the key error; with status downloading, an estimate that is
    present but None, where no exact total is given, raises a type error
    at the comparison with 0, whereas a missing estimate reads as 0; and
    with a positive integer total, downloaded bytes that are None raise a
    type error at the division.  In each case nothing is written. *)
Theorem progress_hook_malformed (d : gmap string pyval)
    (download_id : string) (r : gmap string job) :
  (d !! "status" = None ->
   progress_hook d download_id r = (Raise "'status'", r, []))
  /\ (d !! "status" = Some (PStr "downloading") ->
      truthy (dict_get d "total_bytes" PNone) = false ->
      d !! "total_bytes_estimate" = Some PNone ->
      progress_hook d download_id r
      = (Raise "'>' not supported between instances of 'NoneType' and 'int'",
         r, []))
  /\ (forall n,
        d !! "status" = Some (PStr "downloading") ->
        d !! "total_bytes" = Some (PInt n) -> 0 < n ->
        d !! "downloaded_bytes" = Some PNone ->
        progress_hook d download_id r
        = (Raise "unsupported operand type(s) for /: 'NoneType' and 'int'",
           r, [])).
Proof.
  split; [|split].
  - intros Hst. unfold progress_hook, dict_item. rewrite Hst. reflexivity.
  - intros Hst Hfalsy Hest. unfold progress_hook, dict_item. cbv zeta.
    rewrite Hst. cbn [lift]. rewrite run_ret_bind.
    cbn [py_eq_str String.eqb Ascii.eqb Bool.eqb andb].
    unfold py_or. rewrite Hfalsy. unfold dict_get. rewrite Hest.
    reflexivity.
  - intros n Hst Htot Hn Hdl. unfold progress_hook, dict_item. cbv zeta.
    rewrite Hst. cbn [lift]. rewrite run_ret_bind.
    cbn [py_eq_str String.eqb Ascii.eqb Bool.eqb andb].
    unfold py_or, dict_get. rewrite Htot, Hdl. cbn [truthy].
    assert ((n =? 0) = false) as -> by (apply Z.eqb_neq; lia).
    cbn [negb py_gt_0 lift].
    assert ((0 <? n) = true) as -> by (apply Z.ltb_lt; exact Hn).
    rewrite run_ret_bind. reflexivity.
Qed.

Lemma progress_hook_malformed_witness :
  progress_hook
    {[ "status" := PStr "downloading"; "downloaded_bytes" := PInt 5;
       "total_bytes_estimate" := PNone ]} "id-1" {[ "id-1" := new_job ]}
  = (Raise "'>' not supported between instances of 'NoneType' and 'int'",
     {[ "id-1" := new_job ]}, []).
Proof.
  refine (proj1 (proj2 (progress_hook_malformed _ "id-1" _)) _ _ _);
    reflexivity.
Defined.

Lemma progress_hook_frame_witness :
  exists j',
    (progress_hook hook_finished "id-1" {[ "id-1" := new_job ]}).1.2
    = <["id-1" := j']> {[ "id-1" := new_job ]}
    /\ filename j' = EmptyString /\ error j' = None.
Proof.
  assert (({[ "id-1" := new_job ]} : gmap string job) !! "id-1" = Some new_job)
    as Hj by reflexivity.
  destruct (progress_hook_frame hook_finished "id-1" {[ "id-1" := new_job ]}
              new_job Hj) as (j' & Hr & _ & Hf & He & _).
  exists j'. auto.
Defined.

(* ------------------------------------------------------------------ *)
(** ** The worker, write by write                                       *)
(* ------------------------------------------------------------------ *)

Lemma tidy_step_refl (j : job) : tidy_step j j.
Proof. split; auto. Qed.

Lemma tidy_step_trans (a b c : job) :
  tidy_step a b -> tidy_step b c -> tidy_step a c.
Proof.
  intros [H1 H2] [K1 K2]. split; [|auto].
  intros Ha. destruct (H1 Ha) as (Hb & Ht & Hth & Hd).
  destruct (K1 Hb) as (Hc & Kt & Kth & Kd).
  repeat split; congruence.
Qed.

Lemma rtc_tidy_step (a b : job) : rtc tidy_step a b -> tidy_step a b.
Proof.
  induction 1 as [|x y z Hxy _ IH]; [apply tidy_step_refl|].
  exact (tidy_step_trans _ _ _ Hxy IH).
Qed.

Lemma follows_emit' (R : job -> job -> Prop) (download_id : string)
    (P : job -> Prop) (l : label) :
  (forall j, R j j) ->
  follows R download_id P (emit l) (fun res j => res = Ok tt /\ P j).
Proof. intros H. apply follows_emit. intros j _. apply H. Qed.

Section WorkerWrites.

Variables (E : environment) (url download_id : string) (quality_height : Z).

Local Abbreviation opts := (build_ydl_opts E quality_height).
Local Abbreviation tidy := (follows tidy_step download_id).

(** The descriptive fields that the metadata set. *)
Local Abbreviation described := (fun j : job =>
  forall info, extract_info E url = Ok info ->
    title j = sanitize_filename (default (u "video") (info_title info))
    /\ thumbnail j = Some (default (PStr EmptyString) (info_thumbnail info))
    /\ duration j = Some (default (PInt 0) (info_duration info))).

(** The record once the metadata phase is over. *)
Local Abbreviation settled := (fun j : job =>
  Forall plain (title j) /\ status j <> Starting /\ described j).

(** A write that leaves title, thumbnail and duration alone and does not
    set the status back to starting. *)
Lemma settled_write (f : job -> job) :
  (forall j, title (f j) = title j) ->
  (forall j, thumbnail (f j) = thumbnail j) ->
  (forall j, duration (f j) = duration j) ->
  (forall j, status j <> Starting -> status (f j) <> Starting) ->
  forall j, settled j -> tidy_step j (f j) /\ settled (f j).
Proof.
  intros Ht Hth Hd Hs j (Hp & Hst & Hdesc).
  split; [split|].
  - intros _. rewrite Ht, Hth, Hd. auto.
  - rewrite Ht. auto.
  - rewrite Ht, Hth, Hd. auto.
Qed.

Lemma progress_hook_tidy d :
  tidy settled (progress_hook d download_id) (fun _ j => settled j).
Proof.
  unfold progress_hook.
  apply keeps_bind; [apply keeps_lift|intros st].
  destruct (py_eq_str st "downloading").
  - apply keeps_bind; [apply keeps_lift|intros positive].
    destruct positive; [|apply keeps_ret].
    apply keeps_bind; [apply keeps_lift|intros ratio].
    apply keeps_bind; [apply keeps_setfield, settled_write; auto|intros _].
    apply keeps_bind; [apply keeps_setfield, settled_write; auto|intros _].
    apply keeps_setfield, settled_write; auto.
  - destruct (py_eq_str st "finished"); [|apply keeps_ret].
    apply keeps_bind; [apply keeps_setfield, settled_write; auto|intros _].
    apply keeps_setfield, settled_write; auto.
Qed.

Lemma run_callbacks_tidy ds :
  tidy settled (run_callbacks ds download_id) (fun _ j => settled j).
Proof.
  induction ds as [|d ds IH]; simpl; [apply keeps_ret|].
  apply keeps_bind; [apply progress_hook_tidy|intros _; exact IH].
Qed.

Lemma download_attempt_tidy n :
  tidy settled
    (download_attempt E opts url download_id quality_height 3 n)
    (fun res j =>
       settled j
       /\ (res = Ok None -> status j = Completed /\ progress j = PInt 100)).
Proof.
  unfold download_attempt.
  set (done := fun j => settled j /\ status j = Completed
                        /\ progress j = PInt 100).
  apply (follows_try _ _ _
           (fun res j =>
              match res with
              | Ok None => done j
              | Ok (Some _) => False
              | Raise _ => settled j
              end)).
  - apply (follows_seq _ _ _ settled).
    { apply follows_emit', tidy_step_refl. }
    apply (follows_bind _ _ _ (fun _ j => settled j)).
    { apply run_callbacks_tidy. }
    2:{ intros e j H. exact H. }
    intros _.
    apply (follows_bind _ _ _ (fun _ j => settled j)).
    { apply keeps_lift. }
    2:{ intros e j H. exact H. }
    intros raw.
    apply (follows_seq _ _ _ settled).
    { apply follows_setfield, settled_write; auto. }
    apply (follows_seq _ _ _ (fun j => settled j /\ status j = Completed)).
    { apply follows_setfield. intros j Hj.
      destruct (settled_write (set_status Completed)
                  ltac:(auto) ltac:(auto) ltac:(auto)
                  ltac:(intros ? _; discriminate) j Hj) as [Hs Hset].
      auto. }
    apply (follows_seq _ _ _ done).
    { apply follows_setfield. intros j [Hj Hst].
      destruct (settled_write (set_progress (PInt 100))
                  ltac:(auto) ltac:(auto) ltac:(auto) ltac:(auto) j Hj)
        as [Hs Hset].
      split; [exact Hs|]. split; [exact Hset|]. split; [exact Hst|reflexivity]. }
    apply (follows_weaken _ _ done done _
             (fun res j => res = Ok None /\ done j));
      [apply follows_ret|auto|intros res j [-> H]; exact H].
  - intros e. cbn beta iota.
    set (Q := fun (res : result (option string)) j =>
                settled j
                /\ (res = Ok None ->
                    status j = Completed /\ progress j = PInt 100)).
    destruct (is_file_lock e).
    + destruct (n <? 3 - 1)%nat.
      * apply (follows_seq _ _ _ settled).
        { apply follows_emit', tidy_step_refl. }
        apply (follows_seq _ _ _ settled).
        { apply follows_setfield, settled_write; auto. }
        apply (follows_weaken _ _ settled settled _
                 (fun res j => res = Ok (Some e) /\ settled j));
          [apply follows_ret|auto|].
        intros res j [-> H]. split; [exact H|discriminate].
      * apply (follows_weaken _ _ settled settled _
                 (fun res j => res = Raise e /\ settled j));
          [apply follows_raise|auto|].
        intros res j [-> H]. split; [exact H|discriminate].
    + apply (follows_weaken _ _ settled settled _
               (fun res j => res = Raise e /\ settled j));
        [apply follows_raise|auto|].
      intros res j [-> H]. split; [exact H|discriminate].
  - intros [e|] j H; [destruct H|].
    destruct H as (Hs & Hst & Hp). split; [exact Hs|auto].
Qed.

Lemma retry_loop_tidy k n last_error :
  tidy settled
    (retry_loop E opts url download_id quality_height 3 (seq n k) last_error)
    (fun res j =>
       settled j
       /\ (forall a, res = Ok a ->
                     status j = Completed /\ progress j = PInt 100)).
Proof.
  revert n last_error. induction k as [|k IH]; intros n last_error.
  - simpl. destruct last_error as [e|].
    + apply (follows_weaken _ _ settled settled _
               (fun res j => res = Raise e /\ settled j));
        [apply follows_raise|auto|].
      intros res j [-> H]. split; [exact H|discriminate].
    + apply (follows_weaken _ _ settled settled _
               (fun res j =>
                  res = Raise "exceptions must derive from BaseException"
                  /\ settled j));
        [apply follows_raise|auto|].
      intros res j [-> H]. split; [exact H|discriminate].
  - simpl.
    eapply follows_bind; [apply (download_attempt_tidy n)| |].
    + intros [e|].
      * apply follows_weaken with (P := settled)
          (Q := fun res j =>
                  settled j
                  /\ (forall a, res = Ok a ->
                                status j = Completed
                                /\ progress j = PInt 100)).
        -- apply (IH (S n) (Some e)).
        -- intros j [H _]. exact H.
        -- auto.
      * set (done := fun j => settled j
                              /\ (@Ok (option string) None = Ok None ->
                                  status j = Completed
                                  /\ progress j = PInt 100)).
        apply (follows_weaken _ _ done done _
                 (fun res j => res = Ok tt /\ done j));
          [apply follows_ret|auto|].
        intros res j [-> [H Hd]]. split; [exact H|]. intros _ _. auto.
    + intros e j [H _]. split; [exact H|discriminate].
Qed.

(** The whole run, write by write: the first event creates the record,
    every later event changes that record only, by a step of [tidy_step],
    and at the end the descriptive fields are those of the metadata and a
    completed job has progress 100. *)
Lemma download_video_chain (r : gmap string job) :
  match download_video E url download_id quality_height r with
  | (res, r', t) =>
      res = Ok tt
      /\ exists t' j',
          t = (LWrite, <[download_id := new_job]> r) :: t'
          /\ r' = <[download_id := j']> r
          /\ chain tidy_step download_id r new_job t' j'
          /\ Forall plain (title j')
          /\ described j'
          /\ (status j' = Completed -> progress j' = PInt 100)
  end.
Proof.
  unfold download_video. rewrite try_setitem.
  set (starting := fun j => status j = Starting /\ Forall plain (title j)).
  set (loose := fun j => Forall plain (title j) /\ described j).
  set (Q := fun (res : result unit) j =>
              res = Ok tt /\ loose j
              /\ (status j = Completed -> progress j = PInt 100)).
  set (Q1 := fun (res : result unit) j =>
               match res with
               | Ok _ => settled j /\ status j = Completed
                         /\ progress j = PInt 100
               | Raise _ => loose j
               end).
  match goal with
  | |- context [try_except ?m ?h (<[download_id := new_job]> r)] =>
      assert (tidy (fun j => j = new_job) (try_except m h) Q) as Hspec
  end.
  { apply (follows_try _ _ _ Q1).
    - cbv zeta.
      apply (follows_weaken _ _ starting _ _ Q1);
        [|intros j ->; split; [reflexivity|constructor]|auto].
      apply (follows_seq _ _ _ starting).
      { destruct (cookiefile opts).
        - apply follows_emit', tidy_step_refl.
        - apply follows_ret. }
      apply (follows_seq _ _ _ starting).
      { apply follows_emit', tidy_step_refl. }
      apply (follows_bind _ _ _
               (fun res j => res = extract_info E url /\ starting j)).
      { apply follows_lift. }
      2:{ intros e j [He [_ Hp]]. split; [exact Hp|].
          intros info Hinfo. rewrite Hinfo in He. discriminate. }
      intros info. apply follows_pure. intros Hinfo.
      set (T := sanitize_filename (default (u "video") (info_title info))).
      set (th := default (PStr EmptyString) (info_thumbnail info)).
      set (du := default (PInt 0) (info_duration info)).
      apply (follows_seq _ _ _ (fun j => starting j /\ title j = T)).
      { apply follows_setfield. intros j [Hs Hp].
        split; [split; [contradiction|intros _; apply sanitize_plain]|].
        split; [split; [exact Hs|apply sanitize_plain]|reflexivity]. }
      apply (follows_seq _ _ _
               (fun j => starting j /\ title j = T /\ thumbnail j = Some th)).
      { apply follows_setfield. intros j [[Hs Hp] Ht].
        split; [split; [contradiction|auto]|].
        split; [split; assumption|]. split; [exact Ht|reflexivity]. }
      apply (follows_seq _ _ _
               (fun j => starting j /\ title j = T /\ thumbnail j = Some th
                         /\ duration j = Some du)).
      { apply follows_setfield. intros j ([Hs Hp] & Ht & Hth).
        split; [split; [contradiction|auto]|].
        split; [split; assumption|]. auto. }
      apply (follows_seq _ _ _ settled).
      { apply follows_setfield. intros j ([Hs Hp] & Ht & Hth & Hd).
        split; [split; [contradiction|auto]|].
        split; [exact Hp|]. split; [discriminate|].
        intros info' Hinfo'. rewrite Hinfo' in Hinfo. injection Hinfo as <-.
        auto. }
      apply (follows_weaken _ _ settled settled _
               (fun res j =>
                  settled j
                  /\ (forall a, res = Ok a ->
                                status j = Completed
                                /\ progress j = PInt 100)));
        [apply (retry_loop_tidy 3 0 None)|auto|].
      intros [a|e] j [Hs Hd]; cbn.
      + destruct (Hd a eq_refl). auto.
      + destruct Hs as (Hp & _ & Hdesc). split; assumption.
    - intros e. cbn beta iota.
      apply (follows_seq _ _ _ (fun j => loose j /\ status j = Error)).
      { apply follows_setfield. intros j [Hp Hdesc].
        split; [split; [intros _; repeat split; auto; discriminate|auto]|].
        split; [split; assumption|reflexivity]. }
      apply (follows_weaken _ _ (fun j => loose j /\ status j = Error) _ _
               (fun res j => res = Ok tt /\ (loose j /\ status j = Error)));
        [|auto|].
      + apply follows_setfield. intros j [[Hp Hdesc] Hs].
        split; [split; [intros Hn; repeat split; auto|auto]|].
        split; [split; assumption|exact Hs].
      + intros res j (-> & Hl & Hs). split; [reflexivity|].
        split; [exact Hl|]. intros Hc. rewrite Hs in Hc. discriminate.
    - intros [] j ((Hp & _ & Hdesc) & Hs & Hprog).
      split; [reflexivity|]. split; [split; assumption|auto]. }
  specialize (Hspec r new_job eq_refl).
  match goal with
  | |- context [try_except ?m ?h (<[download_id := new_job]> r)] =>
      destruct (try_except m h (<[download_id := new_job]> r))
        as [[res r'] t]
  end.
  destruct Hspec as (j' & -> & Hc & -> & [Hp Hdesc] & Hprog). simpl.
  split; [reflexivity|]. exists t, j'. auto 10.
Qed.

End WorkerWrites.

Lemma chain_split (R : job -> job -> Prop) (download_id : string)
    (r : gmap string job) (j : job) (t : list event) (j' : job)
    (i : nat) (l : label) (ri : gmap string job) :
  chain R download_id r j t j' ->
  t !! i = Some (l, ri) ->
  exists a, ri = <[download_id := a]> r /\ rtc R j a /\ rtc R a j'.
Proof.
  revert j i. induction t as [|[l1 r1] t IH]; intros j i Hc Hi; [discriminate|].
  destruct Hc as (j1 & -> & Hstep & Hc). destruct i as [|i].
  - injection Hi as <- <-. exists j1. split; [reflexivity|].
    split; [apply rtc_once, Hstep|exact (chain_end _ _ _ _ _ _ Hc)].
  - destruct (IH j1 i Hc Hi) as (a & Ha & H1 & H2).
    exists a. split; [exact Ha|]. split; [|exact H2].
    eapply rtc_l; eassumption.
Qed.

Section RunWrites.

Variables (E : environment) (url download_id : string) (quality_height : Z)
  (r : gmap string job).

Local Abbreviation run_trace := (trace E url download_id quality_height r).

Lemma trace_chain :
  exists t' jf,
    run_trace = (LWrite, <[download_id := new_job]> r) :: t'
    /\ chain tidy_step download_id r new_job t' jf
    /\ final_job E url download_id quality_height r = Some jf
    /\ (download_video E url download_id quality_height r).1.2
       = <[download_id := jf]> r
    /\ Forall plain (title jf)
    /\ (forall info, extract_info E url = Ok info ->
          title jf = sanitize_filename (default (u "video") (info_title info))
          /\ thumbnail jf
             = Some (default (PStr EmptyString) (info_thumbnail info))
          /\ duration jf = Some (default (PInt 0) (info_duration info)))
    /\ (status jf = Completed -> progress jf = PInt 100).
Proof.
  pose proof (download_video_chain E url download_id quality_height r) as H.
  unfold trace, final_job.
  destruct (download_video E url download_id quality_height r) as [[res r'] t].
  destruct H as (_ & t' & jf & -> & -> & Hc & Hp & Hd & Hprog).
  exists t', jf. cbn [fst snd]. rewrite lookup_insert_eq. auto 10.
Qed.

(** The record at an event, with its way from the new record and to the
    final one. *)
Lemma trace_chain_record i l ri :
  run_trace !! i = Some (l, ri) ->
  exists a jf,
    ri = <[download_id := a]> r
    /\ final_job E url download_id quality_height r = Some jf
    /\ tidy_step new_job a /\ tidy_step a jf.
Proof.
  destruct trace_chain as (t' & jf & -> & Hc & Hf & _). intros Hi.
  destruct i as [|i].
  - injection Hi as <- <-. exists new_job, jf.
    split; [reflexivity|]. split; [exact Hf|].
    split; [apply tidy_step_refl|].
    exact (rtc_tidy_step _ _ (chain_end _ _ _ _ _ _ Hc)).
  - destruct (chain_split _ _ _ _ _ _ _ _ _ Hc Hi) as (a & Ha & H1 & H2).
    exists a, jf. split; [exact Ha|]. split; [exact Hf|].
    split; apply rtc_tidy_step; assumption.
Qed.

End RunWrites.

(** Every job runs on its own record.  At every event of a run, and at
    its end, the registry is the one in which the worker was started but
    for the record of the worker's own download id: no other record is
    written, added or removed. *)
Theorem worker_writes_own_record (E : environment) (url download_id : string)
    (quality_height : Z) (r : gmap string job) :
  (forall i l ri,
      trace E url download_id quality_height r !! i = Some (l, ri) ->
      (exists j, ri = <[download_id := j]> r)
      /\ forall k, k <> download_id -> ri !! k = r !! k)
  /\ (exists j,
        (download_video E url download_id quality_height r).1.2
        = <[download_id := j]> r)
  /\ forall k, k <> download_id ->
        (download_video E url download_id quality_height r).1.2 !! k = r !! k.
Proof.
  split; [|split].
  - intros i l ri Hi.
    destruct (trace_chain_record E url download_id quality_height r i l ri Hi)
      as (a & jf & -> & _).
    split; [exists a; reflexivity|].
    intros k Hk. apply lookup_insert_ne. congruence.
  - destruct (trace_chain E url download_id quality_height r)
      as (t' & jf & _ & _ & _ & Hr & _). exists jf. exact Hr.
  - intros k Hk.
    destruct (trace_chain E url download_id quality_height r)
      as (t' & jf & _ & _ & _ & -> & _).
    apply lookup_insert_ne. congruence.
Qed.

(** The title a reader finds on a record never holds a reserved character
    or a code point outside the basic multilingual plane: it is empty
    until the metadata is fetched and the sanitized title afterwards. *)
Theorem polled_title_is_clean (E : environment) (url download_id : string)
    (quality_height : Z) (r : gmap string job) (i : nat) (l : label)
    (ri : gmap string job) :
  trace E url download_id quality_height r !! i = Some (l, ri) ->
  exists j, ri !! download_id = Some j
            /\ Forall (fun c => (c < 65536)%N /\ ~ In c windows_invalid)
                 (title j).
Proof.
  intros Hi.
  destruct (trace_chain_record E url download_id quality_height r i l ri Hi)
    as (a & jf & -> & _ & [_ Hp] & _).
  exists a. split; [apply lookup_insert_eq|].
  eapply Forall_impl; [exact (Hp (List.Forall_nil _))|].
  intros c (H1 & H2 & _). split.
  - unfold keep_ord in H2. apply andb_prop in H2 as [H2 _].
    apply N.ltb_lt in H2. exact H2.
  - intros Hin. unfold is_windows_invalid in H1.
    assert (existsb (N.eqb c) windows_invalid = true) as Ht.
    { apply existsb_exists. exists c. split; [exact Hin|apply N.eqb_refl]. }
    rewrite H1 in Ht. discriminate.
Qed.



Lemma polled_title_is_clean_witness :
  exists l ri j,
    trace env_ok "https://example.com/v1" "id-1" 720 ∅ !! 3%nat
    = Some (l, ri)
    /\ ri !! "id-1" = Some j
    /\ Forall (fun c => (c < 65536)%N /\ ~ In c windows_invalid) (title j).
Proof.
  assert (exists l ri,
             trace env_ok "https://example.com/v1" "id-1" 720 ∅ !! 3%nat
             = Some (l, ri)) as (l & ri & Hi).
  { do 2 eexists. vm_compute. reflexivity. }
  destruct (polled_title_is_clean env_ok "https://example.com/v1" "id-1" 720
              ∅ 3 l ri Hi) as (j & Hj & Hc).
  exists l, ri, j. auto.
Defined.


(* ------------------------------------------------------------------ *)
(** ** Runs that end early                                              *)
(* ------------------------------------------------------------------ *)

(** When the metadata cannot be fetched nothing is downloaded: the run
    makes no download call and no wait, and it leaves the record as it was
    created but for the status error and the message of the failure. *)
Theorem metadata_failure_run (E : environment) (url download_id : string)
    (quality_height : Z) (r : gmap string job) (e : string) :
  extract_info E url = Raise e ->
  download_calls (trace E url download_id quality_height r) = []
  /\ sleeps (trace E url download_id quality_height r) = []
  /\ (download_video E url download_id quality_height r).1
     = (Ok tt,
        <[download_id := set_error (Some e) (set_status Error new_job)]> r).
Proof.
  intros Hinfo. unfold trace, download_video.
  rewrite try_setitem. cbv zeta.
  destruct (cookiefile (build_ydl_opts E quality_height)) as [p|].
  - rewrite try_emit, try_emit, Hinfo.
    change (lift (Raise e)) with (@raise video_info e).
    rewrite try_raise, outer_except_run. split; [reflexivity|].
    split; reflexivity.
  - rewrite try_ret, try_emit, Hinfo.
    change (lift (Raise e)) with (@raise video_info e).
    rewrite try_raise, outer_except_run. split; [reflexivity|].
    split; reflexivity.
Qed.

Lemma metadata_failure_run_witness :
  download_calls (trace env_no_info "https://example.com/v1" "id-1" 720 ∅) = []
  /\ sleeps (trace env_no_info "https://example.com/v1" "id-1" 720 ∅) = []
  /\ (download_video env_no_info "https://example.com/v1" "id-1" 720 ∅).1
     = (Ok tt,
        <["id-1" := set_error (Some "Video unavailable")
                      (set_status Error new_job)]> ∅).
Proof.
  exact (metadata_failure_run env_no_info "https://example.com/v1" "id-1" 720
           ∅ "Video unavailable" eq_refl).
Defined.

(** How a run ends, on the record of its job. *)
Lemma final_job_terminal (E : environment) (url download_id : string)
    (quality_height : Z) (r : gmap string job) :
  exists j,
    final_job E url download_id quality_height r = Some j
    /\ ((status j = Completed /\ error j = None /\ progress j = PInt 100)
        \/ (exists e, status j = Error /\ error j = Some e
                      /\ filename j = EmptyString)).
Proof.
  pose proof (download_video_path E url download_id quality_height r) as H.
  destruct (trace_chain E url download_id quality_height r)
    as (t' & jf & _ & _ & Hf & Hr & _ & _ & Hprog).
  unfold final_job in *.
  destruct (download_video E url download_id quality_height r) as [[res r'] t].
  destruct H as (-> & t2 & _ & _ & _ & j' & -> & Hend).
  cbn [fst snd] in *.
  rewrite lookup_insert_eq in Hf. injection Hf as ->.
  exists jf. split; [apply lookup_insert_eq|].
  destruct Hend as [(Hs & He & Hn)|(e & Hs & Hfn & He)].
  - left. auto.
  - right. exists e. auto.
Qed.



(* ------------------------------------------------------------------ *)
(** ** File names: the audio artifact and the served name               *)
(* ------------------------------------------------------------------ *)

Lemma rsplit_dot_head_no_dot s : has_char "." s = false -> rsplit_dot_head s = s.
Proof.
  destruct s as [|c s]; simpl; [reflexivity|].
  intros H. apply orb_false_elim in H as [Hc Hs]. rewrite Hs, Hc. reflexivity.
Qed.

Lemma rsplit_dot_head_app stem ext :
  has_char "." ext = false -> rsplit_dot_head (stem +:+ "." +:+ ext) = stem.
Proof.
  intros Hext. induction stem as [|c stem IH].
  - change (EmptyString +:+ "." +:+ ext) with (String "." ext).
    cbn [rsplit_dot_head]. rewrite Hext. reflexivity.
  - change (String c stem +:+ "." +:+ ext)
      with (String c (stem +:+ "." +:+ ext)).
    cbn [rsplit_dot_head]. rewrite IH.
    rewrite has_char_app.
    change (has_char "." ("." +:+ ext)) with true.
    rewrite orb_true_r. reflexivity.
Qed.

(** For an audio download the name recorded is the prepared name with
    what follows its last dot replaced by mp3.  The last dot is searched
    in the whole path, not in its last component: [ext] may hold a
    slash. *)
Theorem audio_artifact_name (stem ext : string) :
  has_char "." ext = false ->
  artifact_name 0 (stem +:+ "." +:+ ext) = stem +:+ ".mp3".
Proof.
  intros Hext. unfold artifact_name. simpl.
  rewrite rsplit_dot_head_app by exact Hext. reflexivity.
Qed.

Lemma audio_artifact_name_witness :
  artifact_name 0 ("/srv/app.v2" +:+ "." +:+ "d/A b") = "/srv/app.v2" +:+ ".mp3".
Proof. apply audio_artifact_name. reflexivity. Defined.

(** A name without any dot gets mp3 as its extension. *)
Theorem audio_artifact_name_no_dot (name : string) :
  has_char "." name = false -> artifact_name 0 name = name +:+ ".mp3".
Proof.
  intros H. unfold artifact_name. simpl.
  rewrite rsplit_dot_head_no_dot by exact H. reflexivity.
Qed.

Lemma audio_artifact_name_no_dot_witness :
  artifact_name 0 "/app/downloads/A b" = "/app/downloads/A b" +:+ ".mp3".
Proof. apply audio_artifact_name_no_dot. reflexivity. Defined.

Lemma audio_artifact_has_mp3 raw :
  exists stem, artifact_name 0 raw = stem +:+ ".mp3".
Proof. exists (rsplit_dot_head raw). reflexivity. Qed.



(* ------------------------------------------------------------------ *)
(** ** The served name and the Content-Disposition header               *)
(* ------------------------------------------------------------------ *)

Lemma is_ascii_app x y : is_ascii (x +:+ y) = is_ascii x && is_ascii y.
Proof.
  induction x as [|c x IH]; simpl; [reflexivity|].
  rewrite IH. apply andb_assoc.
Qed.

Lemma ascii_safe_is_ascii s : is_ascii (ascii_safe s) = true.
Proof.
  induction s as [|c s IH]; simpl; [reflexivity|].
  destruct (nat_of_ascii c <? 128)%nat eqn:H1; simpl.
  - rewrite H1, IH. reflexivity.
  - destruct (nat_of_ascii c <? 192)%nat; simpl; exact IH.
Qed.

Lemma ascii_safe_fixed s : is_ascii s = true -> ascii_safe s = s.
Proof.
  induction s as [|c s IH]; simpl; [reflexivity|].
  intros H. apply andb_prop in H as [H1 H2].
  rewrite H1, (IH H2). reflexivity.
Qed.

Lemma hex_digit_ascii n : (n < 16)%nat -> (nat_of_ascii (hex_digit n) < 128)%nat.
Proof.
  intros Hn. unfold hex_digit.
  destruct (n <? 10)%nat; rewrite nat_ascii_embedding; lia.
Qed.

Lemma hex_digit_inj a b :
  (a < 16)%nat -> (b < 16)%nat -> hex_digit a = hex_digit b -> a = b.
Proof.
  intros Ha Hb H. apply (f_equal nat_of_ascii) in H. unfold hex_digit in H.
  destruct (a <? 10)%nat eqn:Ea, (b <? 10)%nat eqn:Eb;
    rewrite !nat_ascii_embedding in H by lia;
    try apply Nat.ltb_lt in Ea; try apply Nat.ltb_lt in Eb;
    try apply Nat.ltb_ge in Ea; try apply Nat.ltb_ge in Eb; lia.
Qed.

Lemma nat_of_ascii_bound c : (nat_of_ascii c < 256)%nat.
Proof. destruct c as [[] [] [] [] [] [] [] []]; vm_compute; lia. Qed.

Lemma quote_safe_ascii c : quote_safe c = true -> (nat_of_ascii c < 128)%nat.
Proof.
  destruct c as [[] [] [] [] [] [] [] []]; vm_compute; intros H;
    try discriminate; lia.
Qed.

Lemma quote_is_ascii s : is_ascii (quote s) = true.
Proof.
  induction s as [|c s IH]; simpl; [reflexivity|].
  pose proof (nat_of_ascii_bound c) as Hc.
  destruct (quote_safe c) eqn:Hs.
  - cbn [is_ascii]. rewrite IH, andb_true_r.
    apply Nat.ltb_lt, quote_safe_ascii, Hs.
  - cbn [is_ascii]. rewrite IH, andb_true_r.
    assert (nat_of_ascii c / 16 < 16)%nat
      by (apply Nat.Div0.div_lt_upper_bound; lia).
    assert (nat_of_ascii c mod 16 < 16)%nat by (apply Nat.mod_upper_bound; lia).
    apply andb_true_intro; split; [reflexivity|].
    apply andb_true_intro; split; apply Nat.ltb_lt, hex_digit_ascii; assumption.
Qed.

(** [quote] loses nothing: two names with the same encoding are the same
    name, so the [filename*] parameter tells apart any two served
    names. *)
Theorem quote_injective (s1 s2 : string) : quote s1 = quote s2 -> s1 = s2.
Proof.
  revert s2. induction s1 as [|c1 s1 IH]; intros [|c2 s2] H.
  - reflexivity.
  - simpl in H. destruct (quote_safe c2); discriminate.
  - simpl in H. destruct (quote_safe c1); discriminate.
  - cbn [quote] in H.
    destruct (quote_safe c1) eqn:H1, (quote_safe c2) eqn:H2.
    + injection H as -> H. rewrite (IH s2 H). reflexivity.
    + injection H as -> _. discriminate.
    + injection H as <- _. discriminate.
    + injection H as Hhi Hlo H. rewrite (IH s2 H). f_equal.
      pose proof (nat_of_ascii_bound c1) as Hb1.
      pose proof (nat_of_ascii_bound c2) as Hb2.
      change (hex_digit (nat_of_ascii c1 / 16)
              = hex_digit (nat_of_ascii c2 / 16)) in Hhi.
      change (hex_digit (nat_of_ascii c1 mod 16)
              = hex_digit (nat_of_ascii c2 mod 16)) in Hlo.
      apply hex_digit_inj in Hhi;
        [|apply Nat.Div0.div_lt_upper_bound; lia
         |apply Nat.Div0.div_lt_upper_bound; lia].
      apply hex_digit_inj in Hlo;
        [|apply Nat.mod_upper_bound; lia|apply Nat.mod_upper_bound; lia].
      rewrite <- (ascii_nat_embedding c1), <- (ascii_nat_embedding c2).
      f_equal.
      rewrite (Nat.div_mod_eq (nat_of_ascii c1) 16),
        (Nat.div_mod_eq (nat_of_ascii c2) 16).
      congruence.
Qed.

Lemma quote_injective_witness : "A b.mp4" = "A b.mp4".
Proof. apply quote_injective. reflexivity. Defined.

Lemma endswith_mp4_not_mp3 x : endswith (x +:+ ".mp4") ".mp3" = false.
Proof.
  unfold endswith. rewrite string_length_app.
  replace (String.length x + String.length ".mp4" - String.length ".mp3")%nat
    with (String.length x) by (simpl; lia).
  change (String.length ".mp3") with (String.length ".mp4").
  rewrite substring_app. apply andb_false_r.
Qed.

(** What [get_file] answers when it serves a file. *)
Lemma get_file_served (E : environment) (downloads : gmap string job)
    (download_id path mimetype disposition : string) :
  get_file E downloads download_id = FileResponse path mimetype disposition ->
  exists name,
    disposition = content_disposition name
    /\ ((endswith (lower (basename path)) ".mp3" = true
         /\ name = basename path /\ mimetype = "audio/mpeg")
        \/ (endswith (lower (basename path)) ".mp3" = false
            /\ endswith (lower (basename path)) ".mp4" = true
            /\ name = basename path /\ mimetype = "video/mp4")
        \/ (endswith (lower (basename path)) ".mp3" = false
            /\ endswith (lower (basename path)) ".mp4" = false
            /\ name = basename path +:+ ".mp4" /\ mimetype = "video/mp4")).
Proof.
  unfold get_file. destruct (downloads !! download_id) as [j|]; [|discriminate].
  destruct (negb (status_eqb (status j) Completed)); [discriminate|].
  destruct (negb (path_exists E (filename j))); [discriminate|].
  destruct (endswith (lower (basename (filename j))) ".mp3") eqn:H3.
  - intros [= <- <- <-]. exists (basename (filename j)).
    split; [reflexivity|]. left. auto.
  - destruct (endswith (lower (basename (filename j))) ".mp4") eqn:H4;
      cbn [negb]; intros [= <- <- <-].
    + exists (basename (filename j)). split; [reflexivity|]. right. left. auto.
    + exists (basename (filename j) +:+ ".mp4"). split; [reflexivity|].
      right. right. auto.
Qed.

(** The name under which a file is served always ends, letter case
    apart, in .mp3 or .mp4, and the type follows it: audio/mpeg for .mp3
    and video/mp4 for .mp4.  The name is the last component of the stored
    path, with .mp4 appended when that component has neither ending. *)
Theorem served_name_has_extension (E : environment)
    (downloads : gmap string job)
    (download_id path mimetype disposition : string) :
  get_file E downloads download_id = FileResponse path mimetype disposition ->
  exists name,
    disposition = content_disposition name
    /\ (name = basename path \/ name = basename path +:+ ".mp4")
    /\ ((endswith (lower name) ".mp3" = true /\ mimetype = "audio/mpeg")
        \/ (endswith (lower name) ".mp3" = false
            /\ endswith (lower name) ".mp4" = true
            /\ mimetype = "video/mp4")).
Proof.
  intros H. destruct (get_file_served _ _ _ _ _ _ H) as (name & Hd & Hcases).
  exists name. split; [exact Hd|].
  destruct Hcases as [(H3 & -> & ->)|[(H3 & H4 & -> & ->)|(H3 & H4 & -> & ->)]].
  - auto.
  - auto.
  - split; [auto|]. right. rewrite lower_app.
    change (lower ".mp4") with ".mp4".
    rewrite endswith_mp4_not_mp3, endswith_app. auto.
Qed.

Lemma served_name_has_extension_witness :
  exists name,
    content_disposition "A b.mp4" = content_disposition name
    /\ (name = basename "/app/downloads/A b.mp4"
        \/ name = basename "/app/downloads/A b.mp4" +:+ ".mp4")
    /\ ((endswith (lower name) ".mp3" = true /\ "video/mp4" = "audio/mpeg")
        \/ (endswith (lower name) ".mp3" = false
            /\ endswith (lower name) ".mp4" = true
            /\ "video/mp4" = "video/mp4")).
Proof.
  apply (served_name_has_extension env_ok
           (<["id-1" := set_status Completed
                         (set_filename "/app/downloads/A b.mp4" new_job)]> ∅)
           "id-1").
  vm_compute. reflexivity.
Defined.

(** The header never carries a byte outside ASCII, whatever the stored
    name: the plain parameter has an underscore for each character outside
    ASCII and the extended one is percent-encoded. *)
Theorem content_disposition_ascii (E : environment)
    (downloads : gmap string job)
    (download_id path mimetype disposition : string) :
  get_file E downloads download_id = FileResponse path mimetype disposition ->
  is_ascii disposition = true.
Proof.
  intros H. destruct (get_file_served _ _ _ _ _ _ H) as (name & -> & _).
  unfold content_disposition.
  rewrite !is_ascii_app, ascii_safe_is_ascii, quote_is_ascii. reflexivity.
Qed.

Lemma content_disposition_ascii_witness :
  is_ascii (content_disposition "A b.mp4") = true.
Proof.
  apply (content_disposition_ascii env_ok
           (<["id-1" := set_status Completed
                         (set_filename "/app/downloads/A b.mp4" new_job)]> ∅)
           "id-1" "/app/downloads/A b.mp4" "video/mp4").
  vm_compute. reflexivity.
Defined.

(** A name that is plain ASCII is handed over unchanged in the plain
    parameter of the header. *)
Lemma content_disposition_plain name :
  is_ascii name = true ->
  content_disposition name
  = "attachment; filename=" +:+ double_quote +:+ name +:+ double_quote
      +:+ "; filename*=UTF-8''" +:+ quote name.
Proof. intros H. unfold content_disposition. rewrite (ascii_safe_fixed _ H). reflexivity. Qed.

(* ------------------------------------------------------------------ *)
(** ** Submission                                                       *)
(* ------------------------------------------------------------------ *)


(* ------------------------------------------------------------------ *)
(** ** The qualities offered by [get_video_info]                        *)
(* ------------------------------------------------------------------ *)

Section Qualities.

(** [a] may stand before [b] in a list sorted by height, greatest
    first. *)
Local Abbreviation before a b := (height_key b <= height_key a).

Lemma insert_desc_In x y l : In y (insert_desc x l) <-> y = x \/ In y l.
Proof.
  induction l as [|z l IH]; simpl.
  - split; intros [->|[]]; auto.
  - destruct (height_key z <=? height_key x); simpl.
    + split; intros [->|H]; auto.
    + rewrite IH. split; [intros [->|[->|H]]|intros [->|[->|H]]]; auto.
Qed.

Lemma sort_desc_In y l : In y (sort_desc l) <-> In y l.
Proof.
  induction l as [|x l IH]; simpl; [tauto|].
  rewrite insert_desc_In, IH. split; intros [->|H]; auto.
Qed.

Lemma insert_desc_sorted x l :
  StronglySorted (fun a b => before a b) l ->
  StronglySorted (fun a b => before a b) (insert_desc x l).
Proof.
  induction 1 as [|y l Hs IH Hy]; simpl.
  - constructor; constructor.
  - destruct (height_key y <=? height_key x) eqn:Hle.
    + apply Z.leb_le in Hle. constructor.
      * constructor; assumption.
      * constructor; [exact Hle|].
        eapply List.Forall_impl; [|exact Hy]. simpl. intros z Hz. lia.
    + apply Z.leb_gt in Hle. constructor; [exact IH|].
      apply List.Forall_forall. intros z Hz.
      apply insert_desc_In in Hz as [->|Hz]; [lia|].
      rewrite List.Forall_forall in Hy. exact (Hy z Hz).
Qed.

Lemma sort_desc_sorted l : StronglySorted (fun a b => before a b) (sort_desc l).
Proof.
  induction l as [|x l IH]; simpl; [constructor|].
  apply insert_desc_sorted, IH.
Qed.

(** The sort is stable: the formats of one height keep their order. *)
Lemma insert_desc_stable h x l :
  List.filter (fun f => height_key f =? h) (insert_desc x l)
  = List.filter (fun f => height_key f =? h) (x :: l).
Proof.
  induction l as [|y l IH]; [reflexivity|].
  cbn [insert_desc].
  destruct (height_key y <=? height_key x) eqn:Hle; [reflexivity|].
  apply Z.leb_gt in Hle. cbn [List.filter] in *. rewrite IH.
  destruct (height_key x =? h) eqn:Hx; [|reflexivity].
  apply Z.eqb_eq in Hx.
  assert ((height_key y =? h) = false) as -> by (apply Z.eqb_neq; lia).
  reflexivity.
Qed.

Lemma sort_desc_stable h l :
  List.filter (fun f => height_key f =? h) (sort_desc l)
  = List.filter (fun f => height_key f =? h) l.
Proof.
  induction l as [|x l IH]; [reflexivity|].
  cbn [sort_desc foldr]. rewrite insert_desc_stable.
  cbn [List.filter]. fold (sort_desc l). rewrite IH. reflexivity.
Qed.

Lemma find_filter_head {A} (p : A -> bool) l :
  List.find p l = head (List.filter p l).
Proof.
  induction l as [|x l IH]; simpl; [reflexivity|].
  destruct (p x); [reflexivity|exact IH].
Qed.

Lemma find_sort_desc h l :
  List.find (fun f => height_key f =? h) (sort_desc l)
  = List.find (fun f => height_key f =? h) l.
Proof. rewrite !find_filter_head, sort_desc_stable. reflexivity. Qed.

Lemma find_filter {A} (p q : A -> bool) l :
  List.find p (List.filter q l) = List.find (fun x => q x && p x) l.
Proof.
  induction l as [|x l IH]; simpl; [reflexivity|].
  destruct (q x); simpl; [|exact IH].
  destruct (p x); [reflexivity|exact IH].
Qed.

(** What the loop appends. *)
Lemma quality_loop_In l (S : gset Z) q :
  In q (quality_loop l S) ->
  (q_height q ∉ S) /\ q_height q <> 0
  /\ exists f, In f l /\ q = quality_of f (height_key f).
Proof.
  revert S. induction l as [|f l IH]; intros S; simpl; [tauto|].
  destruct (height_key f =? 0) eqn:H0; cbn [negb andb].
  - intros H. destruct (IH S H) as (H1 & H2 & g & Hg & Hq). eauto 10.
  - case_bool_decide as Hin; cbn [negb].
    + intros H. destruct (IH S H) as (H1 & H2 & g & Hg & Hq). eauto 10.
    + apply Z.eqb_neq in H0. intros [<-|H].
      * simpl. eauto 10.
      * destruct (IH _ H) as (H1 & H2 & g & Hg & Hq).
        apply not_elem_of_union in H1 as [_ H1]. eauto 10.
Qed.

Lemma quality_loop_heights l (S : gset Z) h :
  In h (List.map q_height (quality_loop l S)) <->
  (h ∉ S) /\ h <> 0 /\ exists f, In f l /\ height_key f = h.
Proof.
  revert S. induction l as [|f l IH]; intros S; simpl.
  { split; [tauto|]. intros (_ & _ & f & [] & _). }
  destruct (height_key f =? 0) eqn:H0; cbn [negb andb].
  - apply Z.eqb_eq in H0. rewrite IH. split.
    + intros (H1 & H2 & g & Hg & Hk). eauto 10.
    + intros (H1 & H2 & g & [<-|Hg] & Hk); [congruence|eauto 10].
  - apply Z.eqb_neq in H0. case_bool_decide as Hin; cbn [negb].
    + rewrite IH. split.
      * intros (H1 & H2 & g & Hg & Hk). eauto 10.
      * intros (H1 & H2 & g & [<-|Hg] & Hk); [congruence|eauto 10].
    + cbn [List.map In q_height quality_of]. rewrite IH. split.
      * intros [<-|(H1 & H2 & g & Hg & Hk)]; [eauto 10|].
        apply not_elem_of_union in H1 as [_ H1]. eauto 10.
      * intros (H1 & H2 & g & [<-|Hg] & Hk); [auto|].
        destruct (Z.eq_dec (height_key f) h) as [He|He]; [auto|].
        right. split; [|eauto 10].
        apply not_elem_of_union. split; [|exact H1].
        apply not_elem_of_singleton. congruence.
Qed.

Lemma quality_loop_sorted l (S : gset Z) :
  StronglySorted (fun a b => before a b) l ->
  StronglySorted Z.gt (List.map q_height (quality_loop l S)).
Proof.
  intros Hs. revert S. induction Hs as [|f l Hs IH Hf]; intros S; simpl.
  { constructor. }
  destruct (negb (height_key f =? 0) && negb (bool_decide (height_key f ∈ S)));
    [|apply IH].
  cbn [List.map q_height quality_of]. constructor; [apply IH|].
  apply List.Forall_forall. intros h Hh.
  apply quality_loop_heights in Hh as (H1 & _ & g & Hg & <-).
  rewrite List.Forall_forall in Hf. specialize (Hf g Hg).
  apply not_elem_of_union in H1 as [H1 _].
  apply not_elem_of_singleton in H1. lia.
Qed.

(** Each entry is made from the first format of its height. *)
Lemma quality_loop_first l (S : gset Z) q :
  In q (quality_loop l S) ->
  exists f, List.find (fun f => height_key f =? q_height q) l = Some f
            /\ q = quality_of f (q_height q).
Proof.
  revert S. induction l as [|f l IH]; intros S; simpl; [tauto|].
  destruct (height_key f =? 0) eqn:H0; cbn [negb andb].
  - intros H. apply Z.eqb_eq in H0.
    destruct (quality_loop_In _ _ _ H) as (_ & Hq & _).
    assert ((height_key f =? q_height q) = false) as ->
      by (apply Z.eqb_neq; lia).
    exact (IH S H).
  - case_bool_decide as Hin; cbn [negb].
    + intros H. destruct (quality_loop_In _ _ _ H) as (Hq & _).
      assert ((height_key f =? q_height q) = false) as ->
        by (apply Z.eqb_neq; intros He; rewrite He in Hin; contradiction).
      exact (IH S H).
    + intros [<-|H].
      * cbn [q_height quality_of]. rewrite Z.eqb_refl. eauto.
      * destruct (quality_loop_In _ _ _ H) as (Hq & _).
        apply not_elem_of_union in Hq as [Hq _].
        apply not_elem_of_singleton in Hq.
        assert ((height_key f =? q_height q) = false) as ->
          by (apply Z.eqb_neq; congruence).
        exact (IH _ H).
Qed.

Lemma is_video_format_height f :
  is_video_format f = true <->
  py_eq_str (default PNone (f_vcodec f)) "none" = false
  /\ exists h, f_height f = Some h /\ h <> 0.
Proof.
  unfold is_video_format. rewrite andb_true_iff, negb_true_iff.
  destruct (f_height f) as [h|].
  - rewrite negb_true_iff, Z.eqb_neq. split.
    + intros [H1 H2]. eauto.
    + intros (H1 & h' & [= <-] & H2). auto.
  - split; [intros [_ H]; discriminate|intros (_ & h & H & _); discriminate].
Qed.

End Qualities.

(** The video entries that [get_video_info] lists for [info]. *)
Lemma get_video_info_page (E : environment)
    (extract : info_opts -> string -> result info_dict)
    (data : download_request) (page : info_page) :
  get_video_info E extract data = InfoPage page ->
  exists url info,
    req_url data = Some url /\ url <> EmptyString
    /\ extract (info_ydl_opts E) url = Ok info
    /\ d_description info <> Some None
    /\ page_qualities page
       = quality_loop
           (sort_desc (List.filter is_video_format (default [] (d_formats info))))
           ∅ ++ [audio_only].
Proof.
  unfold get_video_info.
  destruct (req_url data) as [url|]; cbn [default from_option id];
    [|discriminate].
  destruct (String.eqb url EmptyString) eqn:Hu; [discriminate|].
  apply String.eqb_neq in Hu.
  destruct (extract (info_ydl_opts E) url) as [info|e] eqn:Hx; [|discriminate].
  intros H. exists url, info.
  split; [reflexivity|]. split; [exact Hu|]. split; [exact Hx|].
  destruct (d_description info) as [[description|]|];
    cbn [default from_option id] in H; try discriminate;
    (split; [discriminate|]); injection H as <-; cbn [page_qualities];
    destruct (d_formats info) as [[|f fs]|]; reflexivity.
Qed.

Lemma page_video_part (E : environment)
    (extract : info_opts -> string -> result info_dict)
    (data : download_request) (page : info_page) :
  get_video_info E extract data = InfoPage page ->
  exists url info,
    req_url data = Some url /\ url <> EmptyString
    /\ extract (info_ydl_opts E) url = Ok info
    /\ page_qualities page = removelast (page_qualities page) ++ [audio_only]
    /\ removelast (page_qualities page)
       = quality_loop
           (sort_desc (List.filter is_video_format (default [] (d_formats info))))
           ∅.
Proof.
  intros H.
  destruct (get_video_info_page E extract data page H)
    as (url & info & Hu & Hne & Hx & _ & Hq).
  exists url, info. rewrite Hq, removelast_last. auto.
Qed.

(** Whatever the engine lists, the qualities offered are video entries of
    strictly decreasing height, none of height 0 and none twice, each
    labelled after its height, followed by the audio entry, which is
    always there and always last. *)
Theorem offered_qualities_descending (E : environment)
    (extract : info_opts -> string -> result info_dict)
    (data : download_request) (page : info_page) :
  get_video_info E extract data = InfoPage page ->
  page_qualities page = removelast (page_qualities page) ++ [audio_only]
  /\ StronglySorted Z.gt (video_heights page)
  /\ List.NoDup (video_heights page)
  /\ Forall (fun q => q_height q <> 0
                      /\ q_label q = quality_label (q_height q))
       (removelast (page_qualities page)).
Proof.
  intros H.
  destruct (page_video_part E extract data page H)
    as (url & info & _ & _ & _ & Hlast & Hv).
  split; [exact Hlast|]. unfold video_heights. rewrite Hv.
  assert (StronglySorted Z.gt
            (List.map q_height
               (quality_loop
                  (sort_desc
                     (List.filter is_video_format (default [] (d_formats info))))
                  ∅))) as Hs
    by apply quality_loop_sorted, sort_desc_sorted.
  split; [exact Hs|]. split.
  - induction Hs as [|h l _ IH Hh]; constructor; [|exact IH].
    intros Hin. rewrite List.Forall_forall in Hh. specialize (Hh h Hin). lia.
  - apply List.Forall_forall. intros q Hq.
    destruct (quality_loop_In _ _ _ Hq) as (_ & H0 & f & _ & ->).
    split; [exact H0|reflexivity].
Qed.

Lemma offered_qualities_descending_witness :
  exists page,
    get_video_info env_ok sample_extract
      {| req_url := Some "https://example.com/v1"; req_quality := None |}
    = InfoPage page
    /\ List.map q_label (page_qualities page)
       = ["4K (2160p)"; "1080p"; "720p"; "Audio Only (MP3)"]
    /\ StronglySorted Z.gt (video_heights page).
Proof.
  eexists. split; [vm_compute; reflexivity|]. split; [reflexivity|].
  apply (offered_qualities_descending env_ok sample_extract
           {| req_url := Some "https://example.com/v1"; req_quality := None |}).
  vm_compute. reflexivity.
Defined.





(** When [get_video_info] answers with a page and when it does not.  An
    error always has code 400.  A page is the answer exactly when the URL
    is given and not empty, the engine returns and the description it
    returns is not null; a null description makes the answer an error
    although the engine has returned. *)
Theorem get_video_info_success_iff (E : environment)
    (extract : info_opts -> string -> result info_dict)
    (data : download_request) :
  (forall code message,
      get_video_info E extract data = InfoError code message -> code = 400)
  /\ ((exists page, get_video_info E extract data = InfoPage page) <->
      exists url info,
        req_url data = Some url /\ url <> EmptyString
        /\ extract (info_ydl_opts E) url = Ok info
        /\ d_description info <> Some None)
  /\ (forall url info,
        req_url data = Some url -> url <> EmptyString ->
        extract (info_ydl_opts E) url = Ok info ->
        d_description info = Some None ->
        get_video_info E extract data
        = InfoError 400 "'NoneType' object is not subscriptable").
Proof.
  split; [|split].
  - unfold get_video_info. intros code message.
    destruct (String.eqb (default EmptyString (req_url data)) EmptyString);
      [intros [= <- _]; reflexivity|].
    destruct (extract (info_ydl_opts E) (default EmptyString (req_url data)))
      as [info|e]; [|intros [= <- _]; reflexivity].
    destruct (default (Some []) (d_description info));
      [discriminate|intros [= <- _]; reflexivity].
  - split.
    + intros [page H].
      destruct (get_video_info_page E extract data page H)
        as (url & info & Hu & Hne & Hx & Hd & _). eauto 10.
    + intros (url & info & Hu & Hne & Hx & Hd).
      unfold get_video_info. rewrite Hu. cbn [default from_option id].
      apply String.eqb_neq in Hne. rewrite Hne, Hx.
      destruct (d_description info) as [[description|]|];
        cbn [default from_option id]; [eauto| |eauto].
      exfalso. apply Hd. reflexivity.
  - intros url info Hu Hne Hx Hd.
    unfold get_video_info. rewrite Hu. cbn [default from_option id].
    apply String.eqb_neq in Hne. rewrite Hne, Hx, Hd. reflexivity.
Qed.

(** Every quality offered can be posted back: the download starts with
    the offered height, cut at 4320, and it is an audio download exactly
    for the audio entry. *)
Theorem offered_quality_starts (E : environment)
    (extract : info_opts -> string -> result info_dict)
    (data : download_request) (page : info_page) (q : quality_option)
    (url uuid4 : string) (th : thread) :
  get_video_info E extract data = InfoPage page ->
  In q (page_qualities page) ->
  snd (start_download {| req_url := Some url;
                         req_quality := Some (q_height q) |} uuid4)
  = Some th ->
  thread_quality_height th = Z.min (q_height q) 4320
  /\ (format (build_ydl_opts E (thread_quality_height th)) = "bestaudio/best"
      <-> q = audio_only).
Proof.
  intros H Hq Hth.
  destruct (page_video_part E extract data page H)
    as (_ & info & _ & _ & _ & Hlast & Hv).
  assert (thread_quality_height th = Z.min (q_height q) 4320) as Hmin.
  { unfold start_download in Hth. cbn [req_url req_quality default from_option id] in Hth.
    destruct (String.eqb url EmptyString); [discriminate|].
    cbn [snd] in Hth. injection Hth as <-. cbn [thread_quality_height].
    destruct (4320 <? q_height q) eqn:Hc;
      [apply Z.ltb_lt in Hc|apply Z.ltb_ge in Hc]; lia. }
  split; [exact Hmin|]. rewrite format_audio_iff, Hmin.
  rewrite Hlast in Hq. apply in_app_or in Hq as [Hq|[<-|[]]].
  - rewrite Hv in Hq. destruct (quality_loop_In _ _ _ Hq) as (_ & H0 & _).
    split; [lia|]. intros ->. exfalso. apply H0. reflexivity.
  - split; reflexivity.
Qed.

Lemma offered_quality_starts_witness :
  exists th,
    snd (start_download {| req_url := Some "https://example.com/v1";
                           req_quality := Some (q_height audio_only) |} "id-1")
    = Some th
    /\ thread_quality_height th = Z.min (q_height audio_only) 4320
    /\ (format (build_ydl_opts env_ok (thread_quality_height th))
        = "bestaudio/best" <-> audio_only = audio_only).
Proof.
  eexists. split; [reflexivity|].
  eapply (offered_quality_starts env_ok sample_extract
            {| req_url := Some "https://example.com/v1";
               req_quality := None |} _ audio_only
            "https://example.com/v1" "id-1").
  - vm_compute. reflexivity.
  - vm_compute. do 3 right. left. reflexivity.
  - reflexivity.
Defined.

Lemma get_video_info_success_iff_witness :
  get_video_info env_ok sample_extract_null
    {| req_url := Some "https://example.com/v1"; req_quality := None |}
  = InfoError 400 "'NoneType' object is not subscriptable".
Proof.
  destruct (get_video_info_success_iff env_ok sample_extract_null
              {| req_url := Some "https://example.com/v1";
                 req_quality := None |}) as (_ & _ & H).
  eapply H; [reflexivity|discriminate|reflexivity|reflexivity].
Defined.
